(** * LipidDyn core: order parameters and 2D density maps

    A shallow embedding of [src/LipidDyn/core.py]: the [OrderParameter]
    class, [parse_op_input], the [Density] class and
    [dmap_multiprocessing], followed by the properties established
    about them.

    Numbers.  The Python code computes on IEEE floats (numpy arrays).
    The embedding idealises them as exact numbers: canonical rationals
    [Qc] for the density grid, where every operation is a field
    operation or a comparison and results can be evaluated, and real
    numbers [R] for the order-parameter engine, which needs [sqrt] and
    [acos].  Rounding error is therefore outside the model; control
    flow, indexing, shapes and raised exceptions are modelled as
    written. *)

From Stdlib Require Import String Ascii.
From Stdlib Require Import ZArith QArith Qcanon Qround Qabs Lia Bool.
From Stdlib Require Lqa.
From Stdlib Require Import Reals Lra.
From Stdlib Require Import List Permutation.
Import ListNotations.

(** ** Python runtime notions shared by the whole file *)

Module Py.

(** The Python objects that reach the order-parameter definitions. *)
Inductive value : Type :=
| VNone
| VStr (s : string)
| VInt (z : Z)
| VFloat (r : R)
| VArray (xs : list R)
| VArray2 (rows : list (list R)).

(** Exceptions.  The [UserWarning]s and the [RuntimeError] are the ones
    [core.py] raises itself, with what their messages are formatted
    from; the other constructors are raised by the interpreter or by
    numpy. *)
Inductive exn : Type :=
| IndexError
| ValueError
| ZeroDivisionError
| TypeError
| UnboundLocalError
| AxisError
| RuntimeError (field : value)
| UserWarning_not_a_string (field : value)
| UserWarning_arg_count (len : nat) (args : list value)
| UserWarning_bond (at1 at2 : string) (resnr : Z) (d : R).

(** A computation that either raises ([inl]) or returns ([inr]). *)
Definition exc (A : Type) : Type := (exn + A)%type.

Definition ret {A} (a : A) : exc A := inr a.
Definition raise {A} (e : exn) : exc A := inl e.
Definition bind {A B} (m : exc A) (k : A -> exc B) : exc B :=
  match m with
  | inl e => inl e
  | inr a => k a
  end.

(** [for x in xs: acc = body(acc, x)], stopping at the first raise. *)
Fixpoint for_each {A S} (body : S -> A -> exc S) (xs : list A) (acc : S)
  : exc S :=
  match xs with
  | [] => inr acc
  | x :: rest => bind (body acc x) (for_each body rest)
  end.

(** [seq[i]] on a sequence of length [len]: a negative index counts from
    the end, anything outside [-len, len) raises [IndexError]. *)
Definition index (len : nat) (i : Z) : exc nat :=
  if (0 <=? i)%Z then
    if (i <? Z.of_nat len)%Z then inr (Z.to_nat i) else inl IndexError
  else
    if (- Z.of_nat len <=? i)%Z then inr (Z.to_nat (Z.of_nat len + i))
    else inl IndexError.

(** [xs[i]] *)
Definition getitem {A} (xs : list A) (i : Z) : exc A :=
  match index (length xs) i with
  | inl e => inl e
  | inr k => match nth_error xs k with
             | Some x => inr x
             | None => inl IndexError
             end
  end.

(** [range(n)] *)
Definition range0 (n : Z) : list Z := map Z.of_nat (seq 0 (Z.to_nat n)).

(** [range(start, stop, step)]; a zero step raises [ValueError]. *)
Definition range (start stop step : Z) : exc (list Z) :=
  if (step =? 0)%Z then inl ValueError
  else
    let count :=
      if (0 <? step)%Z
      then Z.to_nat ((stop - start + step - 1) / step)
      else Z.to_nat ((start - stop - step - 1) / (- step)) in
    inr (map (fun k => (start + Z.of_nat k * step)%Z) (seq 0 count)).

(** [seq[lo:hi]] for [0 <= lo]: the bounds are clipped to the length. *)
Definition slice {A} (xs : list A) (lo hi : Z) : list A :=
  firstn (Z.to_nat (hi - lo)) (skipn (Z.to_nat lo) xs).

(** [xs[i] = v] for an index already known to be in range. *)
Fixpoint set_nth {A} (i : nat) (v : A) (xs : list A) : list A :=
  match xs, i with
  | [], _ => []
  | _ :: rest, O => v :: rest
  | x :: rest, S k => x :: set_nth k v rest
  end.

End Py.

Notation "x <- m ;; k" := (Py.bind m (fun x => k))
  (at level 61, m at next level, right associativity).

(** ** Exact arithmetic standing for the floats of the density grid *)

Module Num.

Local Open Scope Qc_scope.

Definition leb (a b : Qc) : bool := Qle_bool a b.
Definition ltb (a b : Qc) : bool := negb (Qle_bool b a).

Definition of_Z (z : Z) : Qc := Q2Qc (inject_Z z).

(** The literals [0.1] and [0.02] of the source. *)
Definition tenth : Qc := Q2Qc (1 # 10).
Definition bins : Qc := Q2Qc (2 # 100).

(** [int(x)]: truncation towards zero. *)
Definition int (x : Qc) : Z :=
  if Qle_bool 0 x then Qfloor x else Qceiling x.

(** Rounding to the nearest integer, ties to the even one: Python's
    [round(x)] and numpy's [rint]. *)
Definition rint (x : Qc) : Z :=
  let f := Qfloor x in
  match Qcompare (x - inject_Z f)%Q (1 # 2) with
  | Lt => f
  | Gt => (f + 1)%Z
  | Eq => if Z.even f then f else (f + 1)%Z
  end.

(** [np.around(x, decimals=5)]: scale, round to the nearest integer,
    scale back. *)
Definition around5 (x : Qc) : Qc :=
  of_Z (rint (x * of_Z 100000)) / of_Z 100000.

End Num.

(** ** The [Density] class *)

Module Density.

Local Open Scope Qc_scope.

Record vec3 : Type := mkVec { vx : Qc; vy : Qc; vz : Qc }.

(** One trajectory frame as [core.py] reads it: [ts.dimensions[0..2]]
    (the box lengths; the three angles are never read),
    [ts.triclinic_dimensions] (the rows of the cell matrix) and the
    position of every atom of the universe in that frame. *)
Record Timestep : Type := mkTs {
  dimensions : vec3;
  triclinic_dimensions : vec3 * vec3 * vec3;
  positions : list vec3
}.

Definition Trajectory : Type := list Timestep.

(** An atom is its index in the universe; an [AtomGroup] is a list of
    atoms.  [atom.position] reads the current frame. *)
Definition Atom : Type := nat.
Definition AtomGroup : Type := list Atom.

Definition position (ts : Timestep) (atom : Atom) : vec3 :=
  nth atom (positions ts) (mkVec 0 0 0).

Definition Grid : Type := list (list Qc).

Record t : Type := mkDensity {
  universe : Trajectory;
  selection : AtomGroup;
  n1 : Z;
  n2 : Z
}.

(** [Density.__init__]: the grid size comes from frame 0. *)
Definition init (u : Trajectory) (sel : AtomGroup) : Py.exc t :=
  match u with
  | [] => Py.raise Py.IndexError
  | ts :: _ =>
      Py.ret {| universe := u;
                selection := sel;
                n1 := Num.rint ((vx (dimensions ts) * Num.tenth) / Num.bins);
                n2 := Num.rint ((vy (dimensions ts) * Num.tenth) / Num.bins) |}
  end.

(** [np.zeros((n1, n2))]; a negative dimension is a [ValueError]. *)
Definition zeros (r c : Z) : Py.exc Grid :=
  if ((r <? 0) || (c <? 0))%Z then Py.raise Py.ValueError
  else Py.ret (repeat (repeat 0 (Z.to_nat c)) (Z.to_nat r)).

(** [np.linalg.det(m * 0.1)] for the 3x3 cell matrix. *)
Definition scale (k : Qc) (v : vec3) : vec3 :=
  mkVec (vx v * k) (vy v * k) (vz v * k).

Definition det3 (m : vec3 * vec3 * vec3) : Qc :=
  let '(a, b, c) := m in
    vx a * (vy b * vz c - vz b * vy c)
  - vy a * (vx b * vz c - vz b * vx c)
  + vz a * (vx b * vy c - vy b * vx c).

Definition scale3 (k : Qc) (m : vec3 * vec3 * vec3) : vec3 * vec3 * vec3 :=
  let '(a, b, c) := m in (scale k a, scale k b, scale k c).

(** [grid[i][j] += v] *)
Definition add_cell (grid : Grid) (i j : Z) (v : Qc) : Py.exc Grid :=
  r <- Py.index (length grid) i ;;
  let row := nth r grid [] in
  c <- Py.index (length row) j ;;
  Py.ret (Py.set_nth r (Py.set_nth c (nth c row 0 + v) row) grid).

(** The fractional X and Y positions as the body of [for atom in g]
    computes them, statement by statement.  The last test reads [m1],
    as the source does. *)
Definition fractions (ts : Timestep) (atom : Atom) : Qc * Qc :=
  let m1 := (vx (position ts atom) * Num.tenth)
            / (vx (dimensions ts) * Num.tenth) in
  let m1 := if Num.leb 1 m1 then m1 - 1 else m1 in
  let m1 := if Num.ltb m1 0 then m1 + 1 else m1 in
  let m2 := (vy (position ts atom) * Num.tenth)
            / (vy (dimensions ts) * Num.tenth) in
  let m2 := if Num.leb 1 m2 then m2 - 1 else m2 in
  let m2 := if Num.ltb m1 0 then m2 + 1 else m2 in
  (m1, m2).

(** The body of [for atom in g] in [do2dgrid]. *)
Definition bin_atom (self : t) (ts : Timestep) (invcellvol : Qc)
    (grid : Grid) (atom : Atom) : Py.exc Grid :=
  let '(m1, m2) := fractions ts atom in
  add_cell grid (Num.int (m1 * Num.of_Z (n1 self)))
                (Num.int (m2 * Num.of_Z (n2 self))) invcellvol.

(** The body of [for ts in trajectory]. *)
Definition bin_frame (self : t) (grid : Grid) (ts : Timestep)
  : Py.exc Grid :=
  let invcellvol := Num.of_Z (n1 self * n2 self) in
  let invcellvol :=
    invcellvol / det3 (scale3 Num.tenth (triclinic_dimensions ts)) in
  Py.for_each (bin_atom self ts invcellvol) (selection self) grid.

(** The grid a call of [do2dgrid] builds before appending it. *)
Definition accumulate (self : t) (trajectory : Trajectory) : Py.exc Grid :=
  grid <- zeros (n1 self) (n2 self) ;;
  Py.for_each (bin_frame self) trajectory grid.

(** [Density.do2dgrid]: the new grid is appended to the shared list,
    which is returned. *)
Definition do2dgrid (self : t) (trajectory : Trajectory)
    (l_grids : list Grid) : Py.exc (list Grid) :=
  grid <- accumulate self trajectory ;;
  Py.ret (l_grids ++ [grid]).

(** What [sum(list(final_grid))] can be: Python's [sum] starts from the
    integer [0], so it is a number when no grid was collected and an
    array otherwise. *)
Inductive ndvalue : Type :=
| Scalar (x : Qc)
| Array2 (g : Grid).

(** Elementwise [a + b] of two arrays of one shape (every grid built by
    one [Density] object has shape [(n1, n2)]). *)
Fixpoint zip_with {A} (f : A -> A -> A) (xs ys : list A) : list A :=
  match xs, ys with
  | x :: xs', y :: ys' => f x y :: zip_with f xs' ys'
  | _, _ => []
  end.

Definition grid_add (a b : Grid) : Grid := zip_with (zip_with Qcplus) a b.

Definition nd_add (acc : ndvalue) (g : Grid) : ndvalue :=
  match acc with
  | Scalar x => Array2 (map (map (Qcplus x)) g)
  | Array2 a => Array2 (grid_add a g)
  end.

(** [sum(grids)] *)
Definition py_sum (grids : list Grid) : ndvalue :=
  fold_left nd_add grids (Scalar 0).

(** [np.insert(grid, 0, values, 0)] on an array with [ncols] columns:
    [values] becomes the new first row; it must have [ncols] entries or
    a single one, which is repeated. *)
Definition insert_row (ncols : nat) (grid : Grid) (values : list Qc)
  : Py.exc Grid :=
  if (length values =? ncols)%nat then Py.ret (values :: grid)
  else match values with
       | [v] => Py.ret (repeat v ncols :: grid)
       | _ => Py.raise Py.ValueError
       end.

(** [np.insert(grid, 0, values, 1)]: [values] becomes the new first
    column; it must have one entry per row or a single one. *)
Fixpoint cons_each (values : list Qc) (grid : Grid) : Grid :=
  match values, grid with
  | v :: values', row :: grid' => (v :: row) :: cons_each values' grid'
  | _, _ => []
  end.

Definition insert_col (grid : Grid) (values : list Qc) : Py.exc Grid :=
  if (length values =? length grid)%nat
  then Py.ret (cons_each values grid)
  else match values with
       | [v] => Py.ret (map (cons v) grid)
       | _ => Py.raise Py.ValueError
       end.

(** [Density.normalization].  [np.insert] refuses an array without
    axes, which is what [final_grid] is when it is the number [0]. *)
Definition normalization (self : t) (final_grid : ndvalue)
  : Py.exc Grid :=
  let box1 :=
    fold_left (fun b ts => b + vx (dimensions ts) * Num.tenth) (universe self) 0 in
  let box2 :=
    fold_left (fun b ts => b + vy (dimensions ts) * Num.tenth) (universe self) 0 in
  let len := Num.of_Z (Z.of_nat (length (universe self))) in
  match universe self with
  | [] => Py.raise Py.ZeroDivisionError
  | _ :: _ =>
      let box1 := box1 / len in
      let box2 := box2 / len in
      let tick_x :=
        map (fun i => (Num.of_Z i * box1) / Num.of_Z (n1 self))
            (Py.range0 (n1 self)) in
      let tick_y :=
        map (fun i => (Num.of_Z i * box2) / Num.of_Z (n2 self))
            (Py.range0 (n1 self)) in
      match final_grid with
      | Scalar _ => Py.raise Py.AxisError
      | Array2 final_grid =>
          let grid := map (map (fun x => x / len)) final_grid in
          grid <- insert_row (Z.to_nat (n2 self)) grid tick_x ;;
          let tick_y := 0 :: tick_y in
          grid <- insert_col grid tick_y ;;
          Py.ret (map (map Num.around5) grid)
      end
  end.

End Density.

(** ** [dmap_multiprocessing] *)

Module Dmap.

Import Density.

(** [int(len(u.trajectory) / ncore)] *)
Definition chunk_len (u : Trajectory) (ncore : Z) : Py.exc Z :=
  if (ncore =? 0)%Z then Py.raise Py.ZeroDivisionError
  else Py.ret (Z.quot (Z.of_nat (length u)) ncore).

(** The list comprehension that cuts the trajectory: the [range] is
    built first, then one slice per start. *)
Definition chunk (u : Trajectory) (ncore : Z) : Py.exc (list Trajectory) :=
  step <- chunk_len u ncore ;;
  starts <- Py.range 0 (Z.of_nat (length u)) step ;;
  Py.ret (map (fun x => Py.slice u x (x + step)) starts).

(** One process per slice, each running [dmap.do2dgrid(slices,
    final_grid)] on the shared list.  A process whose target raises
    dies without appending; the parent only joins it.  The processes
    are taken in start order; the sum computed afterwards does not
    depend on the order in which they append. *)
Definition run_processes (dmap : Density.t) (chunk : list Trajectory)
  : list Grid :=
  fold_left
    (fun final_grid slices =>
       match do2dgrid dmap slices final_grid with
       | inr l => l
       | inl _ => final_grid
       end)
    chunk [].

(** The outcome of a call: the slices for which a process was started,
    and what the call returns or raises. *)
Record outcome : Type := mkOutcome {
  started : list Trajectory;
  result : Py.exc Grid
}.

Definition dmap_multiprocessing (universe : Trajectory)
    (selection : AtomGroup) (ncore : Z) : outcome :=
  match Density.init universe selection with
  | inl e => mkOutcome [] (inl e)
  | inr dmap =>
      match chunk universe ncore with
      | inl e => mkOutcome [] (inl e)
      | inr chunk =>
          let final_grid := run_processes dmap chunk in
          let final_grid := py_sum final_grid in
          mkOutcome chunk (normalization dmap final_grid)
      end
  end.

End Dmap.

(** ** Strings as the parser needs them *)

Module Str.

(** [str.isspace] on the code points below 256. *)
Definition isspace (c : ascii) : bool :=
  let n := nat_of_ascii c in
  ((9 <=? n) && (n <=? 13) || (28 <=? n) && (n <=? 32)
   || (n =? 133) || (n =? 160))%nat.

Definition is_empty (s : string) : bool :=
  match s with
  | EmptyString => true
  | String _ _ => false
  end.

Fixpoint lstrip (s : list ascii) : list ascii :=
  match s with
  | [] => []
  | c :: rest => if isspace c then lstrip rest else s
  end.

(** [s.strip()] *)
Definition strip (s : string) : string :=
  string_of_list_ascii
    (rev (lstrip (rev (lstrip (list_ascii_of_string s))))).

(** [s.split()]: the maximal runs of non-blank characters, in order.
    [cur] is the run being read. *)
Fixpoint split_from (cur : string) (s : string) : list string :=
  match s with
  | EmptyString => if is_empty cur then [] else [cur]
  | String c rest =>
      if isspace c
      then if is_empty cur then split_from EmptyString rest
           else cur :: split_from EmptyString rest
      else split_from (cur ++ String c EmptyString) rest
  end.

Definition split (s : string) : list string := split_from EmptyString s.

(** [s.startswith(p)] *)
Definition startswith (s p : string) : bool := String.prefix p s.

End Str.

(** ** The [OrderParameter] class *)

Module OrderParameter.

Import Py.
Local Open Scope R_scope.

(** In Angstroms, the largest distance accepted between the two atoms. *)
Definition bond_len_max : R := 15 / 10.
Definition bond_len_max_sq : R := bond_len_max ^ 2.

Record t : Type := mkOP {
  name : value;
  resname : value;
  atAname : value;
  atBname : value;
  avg : value;
  means : option (list R);
  std : value;
  stem : value;
  traj : list (list R)
}.

(** [self.__dict__]: the attributes in the order they were first
    assigned, each with its value. *)
Definition dict (self : t) : list (string * value) :=
  [ ("name"%string, name self);
    ("resname"%string, resname self);
    ("atAname"%string, atAname self);
    ("atBname"%string, atBname self);
    ("avg"%string, avg self);
    ("means"%string, match means self with
                     | None => VNone
                     | Some m => VArray m
                     end);
    ("std"%string, std self);
    ("stem"%string, stem self);
    ("traj"%string, VArray2 (traj self)) ].

(** Iterating over a dict yields its keys. *)
Definition iter_dict (d : list (string * value)) : list value :=
  map (fun kv => VStr (fst kv)) d.

(** The body of [for field in self.__dict__]. *)
Definition check_field (_ : unit) (field : value) : exc unit :=
  match field with
  | VStr s =>
      if Str.is_empty (Str.strip s) then raise (RuntimeError field)
      else ret tt
  | _ => raise (UserWarning_not_a_string field)
  end.

(** [OrderParameter.__init__] *)
Definition init (name resname atom_A_name atom_B_name : value)
    (args : list value) : exc t :=
  let self := {| name := name; resname := resname;
                 atAname := atom_A_name; atBname := atom_B_name;
                 avg := VNone; means := None; std := VNone; stem := VNone;
                 traj := [] |} in
  _ <- for_each check_field (iter_dict (dict self)) tt ;;
  match args with
  | [a0; a1] =>
      ret {| name := name; resname := resname;
             atAname := atom_A_name; atBname := atom_B_name;
             avg := a0; means := None; std := a1; stem := VNone;
             traj := [] |}
  | [a0; a1; a2] =>
      ret {| name := name; resname := resname;
             atAname := atom_A_name; atBname := atom_B_name;
             avg := a0; means := None; std := a1; stem := a2;
             traj := [] |}
  | [] => ret self
  | _ => raise (UserWarning_arg_count (length args) args)
  end.

(** The call [OrderParameter] with the unpacked [items]: it needs the
    four named parameters; the rest goes to [args]. *)
Definition call (items : list value) : exc t :=
  match items with
  | name :: resname :: atom_A_name :: atom_B_name :: args =>
      init name resname atom_A_name atom_B_name args
  | _ => raise TypeError
  end.

Record xyz : Type := mkXyz { x : R; y : R; z : R }.

Record Atom : Type := mkAtom {
  atom_name : string;
  atom_resid : Z;
  position : xyz
}.

Definition minus (a b : xyz) : xyz :=
  mkXyz (x a - x b) (y a - y b) (z a - z b).

(** [np.square(vec).sum()] *)
Definition square_sum (v : xyz) : R := x v ^ 2 + y v ^ 2 + z v ^ 2.

(** [OrderParameter.calc_OP] *)
Definition calc_OP (self : t) (atoms : list Atom) : exc R :=
  a1 <- getitem atoms 1 ;;
  a0 <- getitem atoms 0 ;;
  let vec := minus (position a1) (position a0) in
  let d2 := square_sum vec in
  if Rgt_dec d2 bond_len_max_sq
  then raise (UserWarning_bond (atom_name a0) (atom_name a1)
                               (atom_resid a0) (sqrt d2))
  else
    let cos2 := z vec ^ 2 / d2 in
    let S := (5 / 10) * (3 * cos2 - 1) in
    ret S.

(** [math.acos]: a [ValueError] outside [-1, 1]. *)
Definition math_acos (c : R) : exc R :=
  if Rgt_dec (Rabs c) 1 then raise ValueError else ret (acos c).

Definition math_degrees (a : R) : R := a * (180 / PI).

(** [math.copysign(m, s)] (the sign of a zero is not modelled). *)
Definition math_copysign (m s : R) : R :=
  if Rle_dec 0 s then Rabs m else - Rabs m.

(** The [try]/[except ValueError] block of [calc_angle] followed by
    [return angle], as a function of the cosine that reaches it.  The
    first component lists the cosines printed. *)
Definition to_angle (cos : R) : list R * exc R :=
  match math_acos cos with
  | inr a => ([], ret (math_degrees a))
  | inl ValueError =>
      if Rge_dec (Rabs cos) 1 then
        let cos' := math_copysign 1 cos in
        ([cos], a <- math_acos cos' ;; ret (math_degrees a))
      else ([], raise UnboundLocalError)
  | inl e => ([], raise e)
  end.

(** [OrderParameter.calc_angle] *)
Definition calc_angle (self : t) (atoms : list Atom) (z_dim : R)
  : list R * exc R :=
  match getitem atoms 1, getitem atoms 0 with
  | inr a1, inr a0 =>
      let vec := minus (position a1) (position a0) in
      let d := sqrt (square_sum vec) in
      let cos := z vec / d in
      let cos := cos * math_copysign 1 (z (position a0) - z_dim * (5 / 10)) in
      to_angle cos
  | inl e, _ => ([], raise e)
  | _, inl e => ([], raise e)
  end.

(** numpy reductions on the [frame][residue] list of lists. *)
Definition np_sum (xs : list R) : R := fold_left Rplus xs 0.

(** [np.mean(xs)] of a flat array. *)
Definition np_mean (xs : list R) : R := np_sum xs / INR (length xs).

(** [np.mean(a)] of a 2D array: the mean of all its entries. *)
Definition np_mean_all (a : list (list R)) : R := np_mean (concat a).

Fixpoint add_rows (r1 r2 : list R) : list R :=
  match r1, r2 with
  | a :: r1', b :: r2' => (a + b) :: add_rows r1' r2'
  | _, _ => []
  end.

(** [np.mean(a, axis=0)]: the rows are added up, the sum is divided by
    their number. *)
Definition np_mean_axis0 (a : list (list R)) : list R :=
  match a with
  | [] => []
  | row :: rows =>
      map (fun s => s / INR (length a)) (fold_left add_rows rows row)
  end.

(** [np.std(xs)]: [sqrt(mean(abs(xs - xs.mean())**2))] *)
Definition np_std (xs : list R) : R :=
  sqrt (np_mean (map (fun v => Rabs (v - np_mean xs) ^ 2) xs)).

(** [OrderParameter.get_avg_std_stem_OP]: stores [self.means] and
    returns the triple. *)
Definition get_avg_std_stem_OP (self : t) : t * (R * R * R) :=
  let means := np_mean_axis0 (traj self) in
  let self' := {| name := name self; resname := resname self;
                  atAname := atAname self; atBname := atBname self;
                  avg := avg self; means := Some means; std := std self;
                  stem := stem self; traj := traj self |} in
  (self', (np_mean_all (traj self),
           np_std means,
           np_std means / sqrt (INR (length means)))).

End OrderParameter.

(** ** [parse_op_input] *)

Module Parser.

Import Py.

(** An [OrderedDict] keyed by strings: insertion order is kept, and
    assigning to a key already present replaces its value in place. *)
Definition OrderedDict : Type := list (string * OrderParameter.t).

Fixpoint setitem (d : OrderedDict) (k : string) (v : OrderParameter.t)
  : OrderedDict :=
  match d with
  | [] => [(k, v)]
  | (k', v') :: rest =>
      if String.eqb k' k then (k, v) :: rest
      else (k', v') :: setitem rest k v
  end.

(** The body of [for line in def_file].  In the assignment to
    [ordPars[items[0]]] Python evaluates the right-hand side, the call
    of [OrderParameter], before the subscript of the target. *)
Definition parse_line (ordPars : OrderedDict) (line : string)
  : exc OrderedDict :=
  if negb (Str.startswith line "#") then
    let items := Str.split line in
    op <- OrderParameter.call (map VStr items) ;;
    key <- getitem items 0 ;;
    ret (setitem ordPars key op)
  else ret ordPars.

Definition parse_op_input (def_file : list string) : exc OrderedDict :=
  for_each parse_line def_file [].

End Parser.

(** ** What the specification says, for comparison with the code *)

Module Spec.

Local Open Scope Qc_scope.

(** The wrap of one fractional coordinate into [0, 1), from that
    coordinate alone: subtract 1 if [m >= 1], add 1 if [m < 0]. *)
Definition wrap (m : Qc) : Qc :=
  let m := if Num.leb 1 m then m - 1 else m in
  if Num.ltb m 0 then m + 1 else m.

(** The fractional positions with each axis wrapped on its own. *)
Definition fractions (ts : Density.Timestep) (atom : Density.Atom)
  : Qc * Qc :=
  let p := Density.position ts atom in
  let d := Density.dimensions ts in
  (wrap ((Density.vx p * Num.tenth) / (Density.vx d * Num.tenth)),
   wrap ((Density.vy p * Num.tenth) / (Density.vy d * Num.tenth))).

(** The run-averaged box lengths in the working unit. *)
Definition avg_box (len : Density.vec3 -> Qc) (u : Density.Trajectory)
  : Qc :=
  fold_right (fun ts acc => len (Density.dimensions ts) * Num.tenth + acc)
             0 u
  / Num.of_Z (Z.of_nat (length u)).

(** [tick[i] = i * avg_box / n] for [i < count]. *)
Definition ticks (avg : Qc) (n : Z) (count : nat) : list Qc :=
  map (fun i => (Num.of_Z (Z.of_nat i) * avg) / Num.of_Z n) (seq 0 count).

Local Open Scope R_scope.

(** Sum of [f i] for [i < n]. *)
Definition sum_upto (n : nat) (f : nat -> R) : R :=
  fold_right (fun i acc => f i + acc) 0 (seq 0 n).

Definition entry (series : list (list R)) (frame residue : nat) : R :=
  nth residue (nth frame series []) 0.

(** Grand mean over the [frames] x [residues] values. *)
Definition grand_mean (series : list (list R)) (frames residues : nat) : R :=
  sum_upto frames (fun f => sum_upto residues (fun r => entry series f r))
  / INR (frames * residues).

(** Mean of one residue across the frames. *)
Definition residue_mean (series : list (list R)) (frames residue : nat)
  : R :=
  sum_upto frames (fun f => entry series f residue) / INR frames.

(** Population standard deviation: the squared deviations from the mean
    are divided by the number of values, not by one less. *)
Definition population_variance (xs : list R) : R :=
  let n := length xs in
  let mu := sum_upto n (fun i => nth i xs 0) / INR n in
  sum_upto n (fun i => (nth i xs 0 - mu) ^ 2) / INR n.

Definition population_std (xs : list R) : R := sqrt (population_variance xs).

End Spec.

(** ** Notions used in the statements *)

Module Props.

Import Py.

(** A line is blank when nothing is left of it after stripping. *)
Definition blank (line : string) : Prop := Str.strip line = EmptyString.

Section Grids.

Import Density.
Local Open Scope Qc_scope.

(** A grid of [r] rows of [c] cells. *)
Definition shaped (r c : nat) (g : Grid) : Prop :=
  length g = r /\ Forall (fun row => length row = c) g.

(** [a + m] when [m] is a grid, the exception of [m] otherwise. *)
Definition plus_result (a : Grid) (m : exc Grid) : exc Grid :=
  match m with
  | inl e => inl e
  | inr b => inr (grid_add a b)
  end.

(** A value with at most 5 decimals. *)
Definition five_decimals (x : Qc) : Prop :=
  exists k : Z, x = Num.of_Z k / Num.of_Z 100000.

End Grids.

(** The number of slices: the frame count divided by the slice length,
    rounded up. *)
Definition slice_count (n step : Z) : nat :=
  Z.to_nat ((n + step - 1) / step).

Section Series.

Import OrderParameter.
Local Open Scope R_scope.

(** The displacement [calc_OP] works on. *)
Definition bond (a0 a1 : Atom) : xyz := minus (position a1) (position a0).

(** A series with [residues] values in every frame. *)
Definition rectangular (residues : nat) (series : list (list R)) : Prop :=
  Forall (fun frame => length frame = residues) series.

End Series.

End Props.

(** ** Concrete inputs used to evaluate the code *)

Module Fixtures.

Import Density.
Local Open Scope Qc_scope.

Definition q (a : Z) (b : positive) : Qc := Q2Qc (a # b).

(** An orthorhombic box of the given lengths holding the given atoms. *)
Definition frame (lx ly lz : Qc) (atoms : list vec3) : Timestep :=
  mkTs (mkVec lx ly lz)
       (mkVec lx 0 0, mkVec 0 ly 0, mkVec 0 0 lz)
       atoms.

(** A 1 x 1 x 1 box (a 5 x 5 grid) with one atom at x = 0.5,
    y = -0.3: inside the box along X, one box length below along Y. *)
Definition frame_y_below : Timestep :=
  frame 1 1 1 [mkVec (q 1 2) (q (-3) 10) 0].

Definition density_5x5 : Density.t :=
  mkDensity [frame_y_below] [0%nat] 5 5.

(** A 0.4 x 0.6 x 1 box: a 2 x 3 grid. *)
Definition frame_2x3 : Timestep :=
  frame (q 2 5) (q 3 5) 1 [mkVec (q 1 5) (q 3 10) 0].

Definition density_2x3 : Density.t :=
  mkDensity [frame_2x3] [0%nat] 2 3.

Definition grid_values (g : Grid) : list (list Q) := map (map this) g.

Local Open Scope string_scope.

Definition newline : string := String (ascii_of_nat 10) "".

Local Open Scope R_scope.

Definition atom_at (x y z : R) : OrderParameter.Atom :=
  OrderParameter.mkAtom "C12" 1 (OrderParameter.mkXyz x y z).

Definition op_beta1 : OrderParameter.t :=
  OrderParameter.mkOP (Py.VStr "beta1") (Py.VStr "POPC") (Py.VStr "C12")
    (Py.VStr "H12A") Py.VNone None Py.VNone Py.VNone [].

(** The same definition after a walk over two frames of two residues. *)
Definition op_walked : OrderParameter.t :=
  OrderParameter.mkOP (Py.VStr "beta1") (Py.VStr "POPC") (Py.VStr "C12")
    (Py.VStr "H12A") Py.VNone None Py.VNone Py.VNone [[1; 3]; [1; 3]].

End Fixtures.

(** ** [read_trajs_calc_OPs] *)

Module Walk.

Import Py OrderParameter.
Local Open Scope R_scope.

(** An atom of the topology: its name, its residue id and where its
    coordinates are found in a frame. *)
Record AtomRef : Type := mkRef {
  ref_name : string;
  ref_resid : Z;
  ref_index : nat
}.

(** A frame as the walk reads it: [frame.dimensions[2]] and the
    coordinates of every atom. *)
Record Frame : Type := mkFrame {
  dimensions_z : R;
  coordinates : list xyz
}.

(** The atom as it stands in a frame. *)
Definition atom_in (frame : Frame) (a : AtomRef) : Atom :=
  mkAtom (ref_name a) (ref_resid a)
         (nth (ref_index a) (coordinates frame) (mkXyz 0 0 0)).

(** The universe built from the topology and the trajectories.
    [select_atoms rnm atA atB] is the answer of MDAnalysis to the two
    selections [resname rnm and name atA] and [resname rnm and name
    atB], split by residue: one group of atoms per residue. *)
Record Universe : Type := mkUniverse {
  select_atoms : value -> value -> value -> list (list AtomRef);
  trajectory : list Frame
}.

(** What the walk prints: the cosine truncated by [calc_angle], and the
    lines describing a residue whose selection is refused. *)
Inductive printed : Type :=
| Cosine (c : R)
| Residue (res : list AtomRef).

(** What the walk raises: its own [UserWarning] on a selection that
    does not hold exactly two atoms, or an exception of the methods it
    calls. *)
Inductive error : Type :=
| UserWarning_selection (atA atB : value) (nat_ : nat)
| Raised (e : exn).

(** A computation that prints, then raises or returns. *)
Definition run (A : Type) : Type := (list printed * (error + A))%type.

Definition ret {A} (a : A) : run A := ([], inr a).

Definition bind {A B} (m : run A) (k : A -> run B) : run B :=
  match m with
  | (out, inl e) => (out, inl e)
  | (out, inr a) => let '(out', r) := k a in (out ++ out', r)
  end.

Fixpoint for_each {A S} (body : S -> A -> run S) (xs : list A) (acc : S)
  : run S :=
  match xs with
  | [] => ret acc
  | x :: rest => bind (body acc x) (for_each body rest)
  end.

(** A definition together with the attribute [selection] the walk
    attaches to it. *)
Record Selected : Type := mkSelected {
  definition : OrderParameter.t;
  selection : list (list AtomRef)
}.

(** The body of [for res in selection]. *)
Definition check_residue (op : OrderParameter.t) (_ : unit)
    (res : list AtomRef) : run unit :=
  if (length res =? 2)%nat then ret tt
  else ([Residue res],
        inl (UserWarning_selection (atAname op) (atBname op) (length res))).

(** The body of the first [for op in ordPars.values()]. *)
Definition select (mol : Universe) (ops : list (string * Selected))
    (entry : string * OrderParameter.t) : run (list (string * Selected)) :=
  let '(key, op) := entry in
  let selection := select_atoms mol (resname op) (atAname op) (atBname op) in
  bind (for_each (check_residue op) selection tt)
       (fun _ => ret (ops ++ [(key, mkSelected op selection)])).

(** The substring test [sub in s]. *)
Fixpoint contains (sub s : string) : bool :=
  String.prefix sub s
  || match s with
     | EmptyString => false
     | String _ rest => contains sub rest
     end.

(** ["vec" in op.name]: a substring test on a string; [None] and
    numbers are not containers; no entry of a numeric array equals a
    string. *)
Definition vec_in (name : value) : exc bool :=
  match name with
  | VStr s => Py.ret (contains "vec" s)
  | VArray _ | VArray2 _ => Py.ret false
  | VNone | VInt _ | VFloat _ => Py.raise TypeError
  end.

Definition lift (m : exc R) : error + R :=
  match m with
  | inl e => inl (Raised e)
  | inr v => inr v
  end.

(** The value computed for one residue in one frame. *)
Definition metric (op : OrderParameter.t) (frame : Frame)
    (residue : list AtomRef) : run R :=
  match vec_in (name op) with
  | inl e => ([], inl (Raised e))
  | inr true =>
      let '(out, angle) :=
        calc_angle op (map (atom_in frame) residue) (dimensions_z frame) in
      (map Cosine out, lift angle)
  | inr false => ([], lift (calc_OP op (map (atom_in frame) residue)))
  end.

(** The body of [for residue in op.selection]. *)
Definition add_metric (op : OrderParameter.t) (frame : Frame)
    (temp_S : list R) (residue : list AtomRef) : run (list R) :=
  bind (metric op frame residue) (fun S => ret (temp_S ++ [S])).

(** [op.traj.append(temp_S)] *)
Definition append_traj (s : Selected) (temp_S : list R) : Selected :=
  let op := definition s in
  mkSelected
    (mkOP (name op) (resname op) (atAname op) (atBname op) (avg op)
          (means op) (std op) (stem op) (traj op ++ [temp_S]))
    (selection s).

(** The body of [for op in ordPars.values()] inside the frame loop;
    [done] holds the definitions already visited in this frame. *)
Definition walk_op (frame : Frame) (done : list (string * Selected))
    (entry : string * Selected) : run (list (string * Selected)) :=
  let '(key, s) := entry in
  bind (for_each (add_metric (definition s) frame) (selection s) [])
       (fun temp_S => ret (done ++ [(key, append_traj s temp_S)])).

(** The body of [for frame in mol.trajectory]. *)
Definition walk_frame (ops : list (string * Selected)) (frame : Frame)
  : run (list (string * Selected)) :=
  for_each (walk_op frame) ops [].

(** [read_trajs_calc_OPs], from the universe on: every definition gets
    its selection, then every frame adds one row to every definition.
    The definitions of [ordPars] are distinct objects, as
    [parse_op_input] builds them. *)
Definition read_trajs_calc_OPs (mol : Universe)
    (ordPars : list (string * OrderParameter.t))
  : run (list (string * Selected)) :=
  bind (for_each (select mol) ordPars [])
       (for_each walk_frame (trajectory mol)).

End Walk.

(** ** [tac] of the pipeline *)

Module Pipeline.

(** The hours, minutes and seconds [tac] prints, from the elapsed time
    rounded to seconds. *)
Definition tac (elapsed : Z) : Z * Z * Z :=
  let t_sec := elapsed in
  let '(t_min, t_sec) := (t_sec / 60, t_sec mod 60)%Z in
  let '(t_hour, t_min) := (t_min / 60, t_min mod 60)%Z in
  (t_hour, t_min, t_sec).

End Pipeline.

(** ** Further notions used in the statements *)

Module Notions.

Section Vectors.

Import OrderParameter.
Local Open Scope R_scope.

(** The vector pointing the other way. *)
Definition opposite (v : xyz) : xyz := mkXyz (- x v) (- y v) (- z v).

End Vectors.

Section Walks.

Import OrderParameter Walk.

(** The definition with further rows appended to its series. *)
Definition extend (op : OrderParameter.t) (rows : list (list R))
  : OrderParameter.t :=
  mkOP (name op) (resname op) (atAname op) (atBname op) (avg op)
       (means op) (std op) (stem op) (traj op ++ rows).

(** The residues the universe selects for a definition. *)
Definition residues_of (mol : Universe) (op : OrderParameter.t)
  : list (list AtomRef) :=
  select_atoms mol (resname op) (atAname op) (atBname op).

(** [row] holds, residue by residue, the values computed in [frame]. *)
Definition measured (op : OrderParameter.t) (residues : list (list AtomRef))
    (frame : Frame) (row : list R) : Prop :=
  Forall2 (fun res v => exists out, metric op frame res = (out, inr v))
          residues row.

(** What a successful walk leaves of one entry of the dictionary: the
    same key, the selection, and one measured row per frame appended
    to the series. *)
Definition walked (mol : Universe) (entry : string * OrderParameter.t)
    (result : string * Selected) : Prop :=
  fst result = fst entry /\
  exists rows : list (list R),
    snd result = mkSelected (extend (snd entry) rows)
                            (residues_of mol (snd entry)) /\
    Forall2 (measured (snd entry) (residues_of mol (snd entry)))
            (trajectory mol) rows.

(** What the frame loop leaves of one entry that already has its
    selection. *)
Definition grown (frames : list Frame) (entry result : string * Selected)
  : Prop :=
  fst result = fst entry /\
  exists rows,
    snd result = mkSelected (extend (definition (snd entry)) rows)
                            (selection (snd entry)) /\
    Forall2 (measured (definition (snd entry)) (selection (snd entry)))
            frames rows.

End Walks.

Section Lines.

(** A word: at least one character, none of them blank. *)
Definition word (w : string) : Prop :=
  w <> EmptyString /\
  forallb (fun c => negb (Str.isspace c)) (list_ascii_of_string w) = true.

(** [ordPars[key]] read back, [None] standing for a missing key. *)
Fixpoint lookup (d : Parser.OrderedDict) (k : string)
  : option OrderParameter.t :=
  match d with
  | [] => None
  | (k', v) :: rest => if String.eqb k' k then Some v else lookup rest k
  end.

(** The keys of the dictionary, in its order. *)
Definition keys (d : Parser.OrderedDict) : list string := map fst d.

(** The name a line defines: its first token. *)
Definition defined_name (line : string) : option string :=
  hd_error (Str.split line).

End Lines.

Section Grids.

Import Density.
Local Open Scope Qc_scope.

(** The sum of all the cells of a grid. *)
Definition row_total (row : list Qc) : Qc := fold_right Qcplus 0 row.

Definition grid_total (g : Grid) : Qc :=
  fold_right (fun row acc => row_total row + acc) 0 g.

(** The weight every atom of a frame adds to its cell. *)
Definition invcellvol (self : Density.t) (ts : Timestep) : Qc :=
  Num.of_Z (n1 self * n2 self)
  / det3 (scale3 Num.tenth (triclinic_dimensions ts)).

(** The atom lies in the box of the frame along X and Y. *)
Definition inside (ts : Timestep) (atom : Atom) : Prop :=
  0 <= vx (position ts atom) /\ vx (position ts atom) < vx (dimensions ts) /\
  0 <= vy (position ts atom) /\ vy (position ts atom) < vy (dimensions ts).

End Grids.

End Notions.

(** ** Further concrete inputs *)

Module MoreFixtures.

Import Py OrderParameter Walk.
Local Open Scope string_scope.
Local Open Scope R_scope.

(** A definition whose series has the same value for both residues in
    each of its two frames. *)
Definition op_uniform : OrderParameter.t :=
  mkOP (VStr "beta1") (VStr "POPC") (VStr "C12") (VStr "H12A")
       VNone None VNone VNone [[1; 1]; [3; 3]].

Definition ref_C12 : AtomRef := mkRef "C12" 1 0.
Definition ref_H12A : AtomRef := mkRef "H12A" 1 1.

(** One POPC residue, C12 at the origin and H12A one unit above it, in
    a single frame. *)
Definition mol_one : Universe :=
  mkUniverse (fun _ _ _ => [[ref_C12; ref_H12A]])
             [mkFrame 45 [mkXyz 0 0 0; mkXyz 0 0 1]].

(** A universe in which the atom B is missing from the residue. *)
Definition mol_bad : Universe :=
  mkUniverse (fun _ _ _ => [[ref_C12]])
             [mkFrame 45 [mkXyz 0 0 0; mkXyz 0 0 1]].

Definition ordPars_beta1 : list (string * OrderParameter.t) :=
  [("beta1", Fixtures.op_beta1)].



End MoreFixtures.


(** * Properties *)

(** ** Density grid: the wrap of the fractional positions *)

Section DensityWrap.

Import Density Props Fixtures.
Local Open Scope Qc_scope.

(** [Density.init] gives the fixture its 5 x 5 grid. *)
Lemma init_frame_y_below :
  Density.init [frame_y_below] [0%nat] = inr density_5x5.
Proof. vm_compute. reflexivity. Qed.

(** C1 (the code departs from the specification). For the atom at
    fractional position (0.5, -0.3) the Y fraction is negative on entry,
    yet [do2dgrid] leaves it at -0.3, because the test before [m2 += 1]
    reads the X fraction; wrapping Y by its own value gives 0.7. The
    increment lands in cell [2][4] instead of [2][3]. *)
Theorem do2dgrid_wraps_y_on_x_fraction :
  let '(m1, m2) := Density.fractions frame_y_below 0%nat in
  let '(s1, s2) := Spec.fractions frame_y_below 0%nat in
  (this m1, this m2) = (1 # 2, -3 # 10)%Q /\
  (this s1, this s2) = (1 # 2, 7 # 10)%Q /\
  Num.int (m2 * Num.of_Z 5) = (-1)%Z /\
  Num.int (s2 * Num.of_Z 5) = 3%Z /\
  match do2dgrid density_5x5 [frame_y_below] [] with
  | inr [g] =>
      grid_values g
      = [ [0; 0; 0; 0; 0]; [0; 0; 0; 0; 0]; [0; 0; 0; 0; 25000];
          [0; 0; 0; 0; 0]; [0; 0; 0; 0; 0] ]%Q
  | _ => False
  end.
Proof. vm_compute. repeat split; reflexivity. Qed.

(** Whenever the wrapped X fraction is not negative, that is for every
    atom less than one box length below the box along X, the Y fraction
    gets the upper correction only: a negative Y fraction stays
    negative. *)
Lemma fractions_y_kept (ts : Timestep) (atom : Atom) :
  Num.ltb (fst (Density.fractions ts atom)) 0 = false ->
  snd (Density.fractions ts atom)
  = (let m2 := (vy (position ts atom) * Num.tenth)
               / (vy (dimensions ts) * Num.tenth) in
     if Num.leb 1 m2 then m2 - 1 else m2).
Proof.
  unfold Density.fractions; cbn [fst snd]; intros H; rewrite H; reflexivity.
Qed.

End DensityWrap.

(** ** Order-parameter definitions: construction and parsing *)

Section Definitions.

Import Py OrderParameter Parser Props Fixtures.
Local Open Scope string_scope.

Lemma for_each_app {A S} (body : S -> A -> exc S) (xs ys : list A) (acc : S) :
  for_each body (xs ++ ys) acc
  = bind (for_each body xs acc) (for_each body ys).
Proof.
  revert acc; induction xs as [|a xs IH]; intros acc; simpl; [reflexivity|].
  destruct (body acc a) as [e|acc']; simpl; [reflexivity|apply IH].
Qed.

(** The validation loop looks at the attribute names, never at what
    was passed. *)
Lemma check_fields_pass (self : OrderParameter.t) :
  for_each check_field (iter_dict (dict self)) tt = inr tt.
Proof. reflexivity. Qed.

(** C3 (the code departs from the specification). With no extra argument
    the constructor returns an object for every four values, strings or
    not, empty or not: the loop that should reject them iterates over
    [self.__dict__], that is over the attribute names. The empty string,
    a blank string and [None] are accepted as a name. *)
Theorem init_accepts_any_fields :
  forall name resname atom_A_name atom_B_name : value,
    OrderParameter.init name resname atom_A_name atom_B_name []
    = inr (mkOP name resname atom_A_name atom_B_name
                VNone None VNone VNone []).
Proof. intros; reflexivity. Qed.

(** Only the number of extra arguments can make it raise. *)
Lemma init_raises_iff name resname atom_A_name atom_B_name args :
  (exists e, OrderParameter.init name resname atom_A_name atom_B_name args
             = inl e)
  <-> ~ In (length args) [0; 2; 3]%nat.
Proof.
  unfold OrderParameter.init; rewrite check_fields_pass; simpl.
  destruct args as [|a0 [|a1 [|a2 [|a3 rest]]]]; simpl; split;
    try (intros [e H]; discriminate H);
    try (intros H; exfalso; apply H; tauto);
    try (intros _; eexists; reflexivity);
    try (intros _ H; repeat destruct H as [H|H]; try discriminate H;
         try contradiction).
Qed.

Lemma lstrip_nil_spaces l :
  Str.lstrip l = [] -> forallb Str.isspace l = true.
Proof.
  induction l as [|c l IH]; simpl; [reflexivity|].
  destruct (Str.isspace c) eqn:E; simpl; [exact IH|discriminate].
Qed.

Lemma lstrip_head l c l' :
  Str.lstrip l = c :: l' -> Str.isspace c = false.
Proof.
  induction l as [|a l IH]; simpl; [discriminate|].
  destruct (Str.isspace a) eqn:E; [exact IH|].
  intros H; injection H as -> _; exact E.
Qed.

Lemma blank_spaces line :
  blank line -> forallb Str.isspace (list_ascii_of_string line) = true.
Proof.
  unfold blank, Str.strip; intros H.
  apply (f_equal list_ascii_of_string) in H.
  rewrite list_ascii_of_string_of_list_ascii in H; simpl in H.
  apply (f_equal (@rev ascii)) in H; rewrite rev_involutive in H; simpl in H.
  apply lstrip_nil_spaces in H.
  rewrite forallb_forall in H.
  destruct (Str.lstrip (list_ascii_of_string line)) as [|c l'] eqn:E.
  - apply lstrip_nil_spaces; exact E.
  - exfalso. pose proof (lstrip_head _ _ _ E) as Hc.
    rewrite (H c) in Hc; [discriminate|].
    apply in_rev; rewrite rev_involutive; left; reflexivity.
Qed.

Lemma split_spaces line :
  forallb Str.isspace (list_ascii_of_string line) = true ->
  Str.split line = [].
Proof.
  unfold Str.split.
  induction line as [|c line IH]; simpl; [reflexivity|].
  destruct (Str.isspace c); simpl; [exact IH|discriminate].
Qed.

Lemma spaces_not_comment line :
  forallb Str.isspace (list_ascii_of_string line) = true ->
  Str.startswith line "#" = false.
Proof.
  unfold Str.startswith; destruct line as [|c line]; [reflexivity|].
  cbn [list_ascii_of_string forallb]; intros H.
  apply andb_true_iff in H as [Hc _].
  cbn [String.prefix].
  destruct (Ascii.ascii_dec "#" c) as [<-|Hne]; [|reflexivity].
  vm_compute in Hc; discriminate Hc.
Qed.

Lemma parse_blank_line ordPars line :
  blank line -> parse_line ordPars line = inl TypeError.
Proof.
  intros H; apply blank_spaces in H.
  unfold parse_line.
  rewrite (spaces_not_comment _ H), (split_spaces _ H); reflexivity.
Qed.

(** C9, as the code has it. A blank line makes [parse_op_input] raise:
    it is not a comment, its token list is empty, and the call of the
    constructor with no argument, evaluated before the subscript
    [items[0]], raises [TypeError]. So every sequence containing a blank
    line raises, and the exception is [TypeError] whenever the lines
    before the first blank one are parsed without error. *)
Theorem blank_line_raises_TypeError :
  forall (before : list string) (line : string) (after : list string),
    blank line ->
    (exists e, parse_op_input (before ++ line :: after)%list = inl e) /\
    (forall ordPars,
        parse_op_input before = inr ordPars ->
        parse_op_input (before ++ line :: after)%list = inl TypeError).
Proof.
  intros before line after Hb; unfold parse_op_input.
  rewrite for_each_app.
  destruct (for_each parse_line before []) as [e|d]; simpl.
  - split; [exists e; reflexivity|intros ? H; discriminate H].
  - rewrite (parse_blank_line d line Hb); simpl.
    split; [exists TypeError; reflexivity|reflexivity].
Qed.

Lemma blank_line_raises_TypeError_witness :
  blank newline /\
  parse_op_input (["beta1 POPC C12 H12A"%string] ++ newline :: [])%list
  = inl TypeError.
Proof.
  split; [reflexivity|].
  refine (proj2 (blank_line_raises_TypeError
                   ["beta1 POPC C12 H12A"%string] newline [] _) _ _);
    reflexivity.
Defined.

(** Counterexample to C9 as the specification words it: it fails on a
    file made of one empty line: the exception is not [IndexError]. *)
Lemma blank_line_not_IndexError :
  parse_op_input [newline] = inl TypeError /\
  parse_op_input [newline] <> inl IndexError.
Proof. split; [reflexivity|discriminate]. Qed.

End Definitions.

(** ** Order-parameter engine: the per-frame metrics *)

Section Metrics.

Import Py OrderParameter Props Fixtures.
Local Open Scope R_scope.

Lemma bond_len_max_sq_value : bond_len_max_sq = 9 / 4.
Proof. unfold bond_len_max_sq, bond_len_max; field. Qed.

Lemma getitem_0 {A} (a0 a1 : A) : getitem [a0; a1] 0 = inr a0.
Proof. reflexivity. Qed.

Lemma getitem_1 {A} (a0 a1 : A) : getitem [a0; a1] 1 = inr a1.
Proof. reflexivity. Qed.

Lemma calc_OP_long self a0 a1 :
  square_sum (bond a0 a1) > 9 / 4 ->
  calc_OP self [a0; a1]
  = inl (UserWarning_bond (atom_name a0) (atom_name a1) (atom_resid a0)
                          (sqrt (square_sum (bond a0 a1)))).
Proof.
  intros H; unfold calc_OP; rewrite getitem_1, getitem_0; cbn [bind].
  fold (bond a0 a1).
  destruct (Rgt_dec (square_sum (bond a0 a1)) bond_len_max_sq) as [_|Hn];
    [reflexivity|].
  exfalso; apply Hn; rewrite bond_len_max_sq_value; exact H.
Qed.

Lemma calc_OP_short self a0 a1 :
  square_sum (bond a0 a1) <= 9 / 4 ->
  calc_OP self [a0; a1]
  = inr ((5 / 10) * (3 * (z (bond a0 a1) ^ 2 / square_sum (bond a0 a1)) - 1)).
Proof.
  intros H; unfold calc_OP; rewrite getitem_1, getitem_0; cbn [bind].
  fold (bond a0 a1).
  destruct (Rgt_dec (square_sum (bond a0 a1)) bond_len_max_sq) as [Hy|_];
    [|reflexivity].
  exfalso; rewrite bond_len_max_sq_value in Hy; lra.
Qed.

Lemma square_sum_from_origin x y z :
  square_sum (bond (atom_at 0 0 0) (atom_at x y z)) = x * x + y * y + z * z.
Proof. unfold square_sum, bond, minus; simpl; ring. Qed.

Lemma z_from_origin x y z :
  OrderParameter.z (bond (atom_at 0 0 0) (atom_at x y z)) = z.
Proof. unfold bond, minus; simpl; ring. Qed.

(** C4, as the code has it. With [vec = posB - posA] and [d2 = |vec|^2]:
    if [d2 > 2.25], [calc_OP] raises, the exception carrying the two
    atom names, the residue id and the distance [sqrt d2]; otherwise it
    returns [0.5 * (3 * vec_z^2 / d2 - 1)]. So (0,0,1) gives 1 and
    (1,0,0) gives -1/2, while (0,0,2), of squared length 4, raises with
    distance 2. *)
Theorem calc_OP_guard_and_value :
  forall (self : OrderParameter.t) (a0 a1 : Atom),
    (square_sum (bond a0 a1) > 9 / 4 ->
     calc_OP self [a0; a1]
     = inl (UserWarning_bond (atom_name a0) (atom_name a1) (atom_resid a0)
                             (sqrt (square_sum (bond a0 a1))))) /\
    (square_sum (bond a0 a1) <= 9 / 4 ->
     calc_OP self [a0; a1]
     = inr ((5 / 10)
            * (3 * (z (bond a0 a1) ^ 2 / square_sum (bond a0 a1)) - 1))) /\
    calc_OP self [atom_at 0 0 0; atom_at 0 0 1] = inr 1 /\
    calc_OP self [atom_at 0 0 0; atom_at 1 0 0] = inr (- (1 / 2)) /\
    calc_OP self [atom_at 0 0 0; atom_at 0 0 2]
    = inl (UserWarning_bond "C12" "C12" 1 2).
Proof.
  intros self a0 a1.
  split; [apply calc_OP_long|].
  split; [apply calc_OP_short|].
  split; [|split].
  - rewrite calc_OP_short; rewrite square_sum_from_origin; [|lra].
    rewrite z_from_origin; f_equal; field.
  - rewrite calc_OP_short; rewrite square_sum_from_origin; [|lra].
    rewrite z_from_origin; f_equal; field.
  - rewrite calc_OP_long; rewrite square_sum_from_origin; [|lra].
    simpl; do 2 f_equal.
    replace (0 * 0 + 0 * 0 + 2 * 2) with (2 * 2) by ring.
    apply sqrt_square; lra.
Qed.

Lemma calc_OP_guard_and_value_witness :
  square_sum (bond (atom_at 0 0 0) (atom_at 1 0 0)) <= 9 / 4 /\
  calc_OP op_beta1 [atom_at 0 0 0; atom_at 1 0 0]
  = inr ((5 / 10)
         * (3 * (z (bond (atom_at 0 0 0) (atom_at 1 0 0)) ^ 2
                 / square_sum (bond (atom_at 0 0 0) (atom_at 1 0 0))) - 1)).
Proof.
  assert (H : square_sum (bond (atom_at 0 0 0) (atom_at 1 0 0)) <= 9 / 4)
    by (rewrite square_sum_from_origin; lra).
  split; [exact H|].
  exact (proj1 (proj2 (calc_OP_guard_and_value op_beta1 (atom_at 0 0 0)
                         (atom_at 1 0 0))) H).
Defined.

(** Counterexample to C4 as the specification words it: it fails on the
    vector (0,0,2): [calc_OP] does not return 1 there, it raises. *)
Lemma calc_OP_002_raises :
  calc_OP op_beta1 [atom_at 0 0 0; atom_at 0 0 2] <> inr 1.
Proof.
  rewrite calc_OP_long; [discriminate|].
  rewrite square_sum_from_origin; lra.
Qed.

Lemma acos_minus_1 : acos (-1) = PI.
Proof. unfold acos; destruct (Rle_dec (-1) (-1)); [reflexivity|lra]. Qed.

Lemma Rabs_minus_1 : Rabs (-1) = 1.
Proof. rewrite Rabs_left; lra. Qed.

Lemma degrees_PI : math_degrees PI = 180.
Proof. unfold math_degrees; field; apply PI_neq0. Qed.

Lemma degrees_0 : math_degrees 0 = 0.
Proof. unfold math_degrees; field; apply PI_neq0. Qed.

Lemma to_angle_above cos :
  1 < cos -> to_angle cos = ([cos], inr 0).
Proof.
  intros H; unfold to_angle, math_acos.
  destruct (Rgt_dec (Rabs cos) 1) as [_|Hn];
    [|exfalso; apply Hn; rewrite Rabs_pos_eq; lra].
  destruct (Rge_dec (Rabs cos) 1) as [_|Hn];
    [|exfalso; apply Hn; rewrite Rabs_pos_eq; lra].
  unfold math_copysign.
  destruct (Rle_dec 0 cos) as [_|Hn]; [|lra].
  rewrite Rabs_R1.
  destruct (Rgt_dec (Rabs 1) 1) as [Hy|_]; [rewrite Rabs_R1 in Hy; lra|].
  simpl; rewrite acos_1, degrees_0; reflexivity.
Qed.

Lemma to_angle_below cos :
  cos < -1 -> to_angle cos = ([cos], inr 180).
Proof.
  intros H; unfold to_angle, math_acos.
  destruct (Rgt_dec (Rabs cos) 1) as [_|Hn];
    [|exfalso; apply Hn; rewrite Rabs_left; lra].
  destruct (Rge_dec (Rabs cos) 1) as [_|Hn];
    [|exfalso; apply Hn; rewrite Rabs_left; lra].
  unfold math_copysign.
  destruct (Rle_dec 0 cos) as [Hy|_]; [lra|].
  rewrite Rabs_R1.
  replace (- (1)) with (-1) by lra.
  destruct (Rgt_dec (Rabs (-1)) 1) as [Hy|_];
    [rewrite Rabs_minus_1 in Hy; lra|].
  simpl; rewrite acos_minus_1, degrees_PI; reflexivity.
Qed.

Lemma to_angle_1 : to_angle 1 = ([], inr 0).
Proof.
  unfold to_angle, math_acos.
  destruct (Rgt_dec (Rabs 1) 1) as [Hy|_]; [rewrite Rabs_R1 in Hy; lra|].
  simpl; rewrite acos_1, degrees_0; reflexivity.
Qed.

Lemma to_angle_minus_1 : to_angle (-1) = ([], inr 180).
Proof.
  unfold to_angle, math_acos.
  destruct (Rgt_dec (Rabs (-1)) 1) as [Hy|_];
    [rewrite Rabs_minus_1 in Hy; lra|].
  simpl; rewrite acos_minus_1, degrees_PI; reflexivity.
Qed.

(** C6, as the code has it. A cosine of absolute value at least 1 never
    makes the angle conversion raise, and the angle is 0 degrees for a
    positive cosine and 180 degrees for a negative one. Beyond 1 in
    absolute value the cosine is clamped to +/-1 and printed; at exactly
    +/-1 the inverse cosine succeeds, so nothing is clamped and nothing
    is printed. *)
Theorem to_angle_clamps :
  forall cos : R,
    (1 < cos -> to_angle cos = ([cos], inr 0)) /\
    (cos < -1 -> to_angle cos = ([cos], inr 180)) /\
    (cos = 1 -> to_angle cos = ([], inr 0)) /\
    (cos = -1 -> to_angle cos = ([], inr 180)).
Proof.
  intros cos; repeat split.
  - apply to_angle_above.
  - apply to_angle_below.
  - intros ->; apply to_angle_1.
  - intros ->; apply to_angle_minus_1.
Qed.

Lemma to_angle_clamps_witness :
  1 < 2 /\ to_angle 2 = ([2], inr 0).
Proof.
  assert (H : 1 < 2) by lra.
  split; [exact H|].
  exact (proj1 (to_angle_clamps 2) H).
Defined.

(** Counterexample to C6 as the specification words it: it fails at a
    cosine of exactly 1: the angle is 0 but no diagnostic is reported. *)
Lemma to_angle_1_silent :
  Rabs 1 >= 1 /\ fst (to_angle 1) = [].
Proof.
  split; [rewrite Rabs_R1; lra|].
  rewrite to_angle_1; reflexivity.
Qed.

(** The clamp is reached from [calc_angle] itself: a bond along the
    normal in the upper leaflet has cosine exactly 1. *)
Lemma calc_angle_along_normal self :
  calc_angle self [atom_at 0 0 30; atom_at 0 0 31] 45 = ([], inr 0).
Proof.
  unfold calc_angle; rewrite getitem_1, getitem_0.
  unfold minus, square_sum, math_copysign; simpl.
  destruct (Rle_dec 0 (30 - 45 * (5 / 10))) as [_|Hn]; [|lra].
  replace ((0 - 0) * ((0 - 0) * 1) + (0 - 0) * ((0 - 0) * 1)
           + (31 - 30) * ((31 - 30) * 1)) with 1 by ring.
  rewrite sqrt_1, Rabs_R1.
  replace ((31 - 30) / 1 * 1) with 1 by field.
  apply to_angle_1.
Qed.

End Metrics.

(** ** Cutting the trajectory into slices *)

Section Chunks.

Import Py Density Dmap Props Fixtures.

Lemma firstn_add {A} (a b : nat) (l : list A) :
  firstn (a + b) l = firstn a l ++ firstn b (skipn a l).
Proof.
  revert l; induction a as [|a IH]; intros l; simpl; [reflexivity|].
  destruct l as [|x l]; simpl.
  - rewrite firstn_nil; reflexivity.
  - f_equal; apply IH.
Qed.

(** Slices of [s] frames taken at the starts [0, s, 2s, ...] lie end
    to end. *)
Lemma concat_slices {A} (s c : nat) (l : list A) :
  concat (map (fun k => firstn s (skipn (k * s) l)) (seq 0 c))
  = firstn (c * s) l.
Proof.
  induction c as [|c IH]; [reflexivity|].
  rewrite seq_S, map_app, concat_app, IH; simpl.
  rewrite app_nil_r, (Nat.add_comm s (c * s)); symmetry; apply firstn_add.
Qed.

Lemma slice_length {A} (s k : nat) (l : list A) :
  length (firstn s (skipn (k * s) l)) = Nat.min s (length l - k * s).
Proof. rewrite length_firstn, length_skipn; reflexivity. Qed.

Lemma chunk_unfold (u : Trajectory) (ncore : Z) :
  (1 <= ncore <= Z.of_nat (length u))%Z ->
  let step := (Z.of_nat (length u) / ncore)%Z in
  (1 <= step)%Z /\
  chunk u ncore
  = inr (map (fun k => firstn (Z.to_nat step) (skipn (k * Z.to_nat step) u))
             (seq 0 (slice_count (Z.of_nat (length u)) step))).
Proof.
  intros H step.
  assert (Hstep : (1 <= step)%Z).
  { unfold step; apply Z.div_le_lower_bound; lia. }
  split; [exact Hstep|].
  unfold chunk, chunk_len.
  destruct (Z.eqb_spec ncore 0) as [E|_]; [lia|].
  rewrite Z.quot_div_nonneg by lia; fold step; cbn [bind ret].
  unfold range.
  destruct (Z.eqb_spec step 0) as [E|_]; [lia|].
  destruct (Z.ltb_spec 0 step) as [_|E]; [|lia].
  cbn [bind].
  rewrite map_map; unfold slice_count.
  replace (Z.of_nat (length u) - 0 + step - 1)%Z
    with (Z.of_nat (length u) + step - 1)%Z by lia.
  unfold ret; f_equal; apply map_ext; intros k; unfold slice.
  f_equal; [f_equal; lia|].
  f_equal; rewrite Z.add_0_l, Z2Nat.inj_mul, Nat2Z.id by lia; reflexivity.
Qed.

Lemma slice_count_bounds (n step : Z) :
  (1 <= step)%Z -> (0 <= n)%Z ->
  let c := ((n + step - 1) / step)%Z in
  (n <= c * step)%Z /\ ((c - 1) * step < n \/ c = 0)%Z /\ (0 <= c)%Z.
Proof.
  intros Hs Hn c.
  pose proof (Z.div_mod (n + step - 1) step ltac:(lia)) as E.
  pose proof (Z.mod_pos_bound (n + step - 1) step ltac:(lia)) as B.
  fold c in E.
  assert (0 <= c)%Z by (apply Z.div_pos; lia).
  repeat split; nia.
Qed.

Lemma slice_count_vs_ncore (n ncore : Z) :
  (1 <= ncore <= n)%Z ->
  let step := (n / ncore)%Z in
  let c := ((n + step - 1) / step)%Z in
  (ncore <= c)%Z /\ (c = ncore <-> n mod ncore = 0)%Z.
Proof.
  intros H step c.
  pose proof (Z.div_mod n ncore ltac:(lia)) as E.
  pose proof (Z.mod_pos_bound n ncore ltac:(lia)) as B.
  fold step in E.
  assert (Hstep : (1 <= step)%Z) by (apply Z.div_le_lower_bound; lia).
  pose proof (Z.div_mod (n + step - 1) step ltac:(lia)) as E'.
  pose proof (Z.mod_pos_bound (n + step - 1) step ltac:(lia)) as B'.
  fold c in E'.
  split; [nia|].
  split; intros Hc; nia.
Qed.

Lemma init_nonempty (ts : Timestep) (u : Trajectory) (sel : AtomGroup) :
  exists dmap, Density.init (ts :: u) sel = inr dmap.
Proof. eexists; reflexivity. Qed.

(** C8, as the code has it. For [1 <= ncore <= n] the frames are cut
    into slices of [step = floor(n / ncore)] frames taken at the starts
    [0, step, 2 step, ...]: the slices lie end to end and together are
    the whole trajectory, none is empty, all but the last hold exactly
    [step] frames, and one process is started per slice. There are
    [ceil(n / step)] of them, which is at least [ncore], and exactly
    [ncore] if and only if [ncore] divides [n]. *)
Theorem chunk_partitions_frames :
  forall (u : Trajectory) (sel : AtomGroup) (ncore : Z),
    (1 <= ncore <= Z.of_nat (length u))%Z ->
    let step := Z.to_nat (Z.of_nat (length u) / ncore) in
    exists chunks : list Trajectory,
      chunk u ncore = inr chunks /\
      started (dmap_multiprocessing u sel ncore) = chunks /\
      concat chunks = u /\
      (forall k, (k < length chunks)%nat ->
                 nth k chunks [] = firstn step (skipn (k * step) u)) /\
      Forall (fun c => (1 <= length c <= step)%nat) chunks /\
      (forall k, (S k < length chunks)%nat ->
                 length (nth k chunks []) = step) /\
      length chunks
      = slice_count (Z.of_nat (length u)) (Z.of_nat (length u) / ncore) /\
      (ncore <= Z.of_nat (length chunks))%Z /\
      (Z.of_nat (length chunks) = ncore
       <-> (Z.of_nat (length u) mod ncore = 0)%Z).
Proof.
  intros u sel ncore H step.
  destruct (chunk_unfold u ncore H) as [Hstep Hchunk].
  fold step in Hchunk.
  set (n := Z.of_nat (length u)) in *.
  set (zstep := (n / ncore)%Z) in *.
  set (c := slice_count n zstep) in *.
  destruct (slice_count_bounds n zstep Hstep ltac:(lia)) as (Hcov & Hlast & Hc0).
  destruct (slice_count_vs_ncore n ncore H) as [Hge Hiff].
  fold zstep in Hge, Hiff.
  assert (Ec : Z.of_nat c = ((n + zstep - 1) / zstep)%Z).
  { unfold c, slice_count; rewrite Z2Nat.id; [reflexivity|exact Hc0]. }
  assert (Es : Z.of_nat step = zstep) by (unfold step; rewrite Z2Nat.id; lia).
  rewrite <- Ec in Hcov, Hlast, Hge, Hiff.
  assert (Hnth : forall k, (k < c)%nat ->
            nth k (map (fun k => firstn step (skipn (k * step) u)) (seq 0 c)) []
            = firstn step (skipn (k * step) u)).
  { intros k Hk.
    rewrite (nth_indep _ [] (firstn step (skipn (0 * step) u)))
      by (rewrite length_map, length_seq; exact Hk).
    rewrite (map_nth (fun k => firstn step (skipn (k * step) u))), seq_nth;
      [reflexivity|exact Hk]. }
  eexists; split; [exact Hchunk|].
  split.
  { unfold dmap_multiprocessing.
    destruct u as [|ts u']; [simpl in n; lia|].
    destruct (init_nonempty ts u' sel) as [dmap ->].
    rewrite Hchunk; reflexivity. }
  split.
  { rewrite concat_slices; apply firstn_all2; nia. }
  rewrite length_map, length_seq.
  split; [exact Hnth|].
  split.
  { apply Forall_forall; intros x Hx.
    apply in_map_iff in Hx as (k & <- & Hk).
    apply in_seq in Hk; rewrite slice_length; nia. }
  split.
  { intros k Hk; rewrite Hnth by lia; rewrite slice_length; nia. }
  split; [reflexivity|].
  split; [exact Hge|exact Hiff].
Qed.

Lemma chunk_partitions_frames_witness :
  exists chunks : list Trajectory,
    chunk (repeat frame_2x3 6) 3 = inr chunks /\
    concat chunks = repeat frame_2x3 6 /\
    length chunks = 3%nat.
Proof.
  destruct (chunk_partitions_frames (repeat frame_2x3 6) [0%nat] 3
              ltac:(simpl; lia))
    as (chunks & Hc & _ & Hcat & _ & _ & _ & Hlen & _).
  exists chunks; repeat split; assumption.
Defined.

(** Counterexample to C8 as the specification words it: it fails for 10
    frames and 3 cores: the slice length is 3, so there are 4 slices (of
    3, 3, 3 and 1 frames) and 4 processes. *)
Lemma chunk_10_frames_3_cores :
  let u := repeat frame_2x3 10 in
  (1 <= 3 <= Z.of_nat (length u))%Z /\
  match chunk u 3 with
  | inr chunks => map (@length Timestep) chunks = [3; 3; 3; 1]%nat
  | inl _ => False
  end /\
  length (started (dmap_multiprocessing u [0%nat] 3)) = 4%nat.
Proof. vm_compute. repeat split; try reflexivity; discriminate. Qed.

(** C10.  With more cores than frames the slice length
    [int(n / ncore)] is 0 and [range] refuses the zero step: building
    the slices raises [ValueError], no process is started, and the
    call raises.  ([Density.__init__] has read frame 0 before, so the
    trajectory is not empty when the slices are built.) *)
Theorem more_cores_than_frames_raises :
  forall (u : Trajectory) (sel : AtomGroup) (ncore : Z),
    (Z.of_nat (length u) < ncore)%Z ->
    chunk u ncore = inl ValueError /\
    started (dmap_multiprocessing u sel ncore) = [] /\
    (exists e, result (dmap_multiprocessing u sel ncore) = inl e) /\
    (u <> [] -> result (dmap_multiprocessing u sel ncore) = inl ValueError).
Proof.
  intros u sel ncore H.
  assert (Hchunk : chunk u ncore = inl ValueError).
  { unfold chunk, chunk_len.
    destruct (Z.eqb_spec ncore 0) as [E|_]; [lia|].
    rewrite Z.quot_small by lia; reflexivity. }
  split; [exact Hchunk|].
  unfold dmap_multiprocessing.
  destruct u as [|ts u'].
  - simpl; repeat split; [eexists; reflexivity|intros E; contradiction].
  - destruct (init_nonempty ts u' sel) as [dmap ->].
    rewrite Hchunk; simpl; repeat split; eexists; reflexivity.
Qed.

Lemma more_cores_than_frames_raises_witness :
  chunk [frame_2x3; frame_2x3] 3 = inl ValueError /\
  result (dmap_multiprocessing [frame_2x3; frame_2x3] [0%nat] 3)
  = inl ValueError.
Proof.
  destruct (more_cores_than_frames_raises [frame_2x3; frame_2x3] [0%nat] 3
              ltac:(simpl; lia)) as (Hc & _ & _ & Hr).
  split; [exact Hc|apply Hr; discriminate].
Defined.

End Chunks.

(** ** Partial grids and their sum *)

Section Merge.

Import Py Density Dmap Props Fixtures.
Local Open Scope Qc_scope.

Lemma zip_with_length {A} (f : A -> A -> A) xs ys :
  length (zip_with f xs ys) = Nat.min (length xs) (length ys).
Proof.
  revert ys; induction xs as [|x xs IH]; intros [|y ys]; simpl; auto.
Qed.

Lemma zip_with_comm {A} (f : A -> A -> A) :
  (forall x y, f x y = f y x) ->
  forall xs ys, zip_with f xs ys = zip_with f ys xs.
Proof.
  intros Hf xs; induction xs as [|x xs IH]; intros [|y ys]; simpl; auto.
  rewrite Hf, IH; reflexivity.
Qed.

Lemma zip_with_assoc {A} (f : A -> A -> A) :
  (forall x y z, f x (f y z) = f (f x y) z) ->
  forall xs ys zs,
    zip_with f xs (zip_with f ys zs) = zip_with f (zip_with f xs ys) zs.
Proof.
  intros Hf xs; induction xs as [|x xs IH]; intros [|y ys] [|z zs];
    simpl; auto.
  rewrite Hf, IH; reflexivity.
Qed.

Lemma zip_with_nth {A} (f : A -> A -> A) xs ys k d dx dy :
  (k < length xs)%nat -> (k < length ys)%nat ->
  nth k (zip_with f xs ys) d = f (nth k xs dx) (nth k ys dy).
Proof.
  revert ys k; induction xs as [|x xs IH]; intros [|y ys] [|k]; simpl;
    intros H1 H2; try lia; [reflexivity|].
  apply IH; lia.
Qed.

Lemma zip_with_set_nth {A} (f : A -> A -> A) xs ys k y d :
  (k < length xs)%nat ->
  zip_with f xs (set_nth k y ys)
  = set_nth k (f (nth k xs d) y) (zip_with f xs ys).
Proof.
  revert ys k; induction xs as [|x xs IH]; intros [|y' ys] [|k]; simpl;
    intros H; try lia; try reflexivity.
  f_equal; apply IH; lia.
Qed.

Lemma set_nth_length {A} k (v : A) xs :
  length (set_nth k v xs) = length xs.
Proof.
  revert k; induction xs as [|x xs IH]; intros [|k]; simpl; auto.
Qed.

Lemma grid_add_comm a b : grid_add a b = grid_add b a.
Proof.
  apply zip_with_comm; intros; apply zip_with_comm; apply Qcplus_comm.
Qed.

Lemma grid_add_assoc a b c :
  grid_add a (grid_add b c) = grid_add (grid_add a b) c.
Proof.
  apply zip_with_assoc; intros; apply zip_with_assoc; apply Qcplus_assoc.
Qed.

Lemma shaped_row r c g k :
  shaped r c g -> (k < r)%nat -> length (nth k g []) = c.
Proof.
  intros [Hl Hf] Hk; rewrite Forall_forall in Hf.
  apply Hf, nth_In; lia.
Qed.

Lemma grid_add_shaped r c a b :
  shaped r c a -> shaped r c b -> shaped r c (grid_add a b).
Proof.
  intros [La Fa] [Lb Fb]; split.
  - unfold grid_add; rewrite zip_with_length; lia.
  - clear La Lb; revert b Fb.
    induction Fa as [|ra a Hra Fa IH]; intros [|rb b] Fb; simpl;
      try constructor.
    + inversion Fb; subst. rewrite zip_with_length; lia.
    + apply IH; inversion Fb; assumption.
Qed.

Lemma zip_with_zeros_r row :
  zip_with Qcplus row (repeat 0 (length row)) = row.
Proof.
  induction row as [|x row IH]; simpl; [reflexivity|].
  rewrite Qcplus_0_r, IH; reflexivity.
Qed.

Lemma grid_add_zeros_r r c a :
  shaped r c a -> grid_add a (repeat (repeat 0 c) r) = a.
Proof.
  intros [<- Fa]; unfold grid_add.
  induction Fa as [|row a Hrow Fa IH]; [reflexivity|].
  cbn [length repeat zip_with].
  rewrite IH, <- Hrow, zip_with_zeros_r; reflexivity.
Qed.

Lemma zeros_shaped r c g :
  zeros r c = inr g ->
  shaped (Z.to_nat r) (Z.to_nat c) g
  /\ g = repeat (repeat 0 (Z.to_nat c)) (Z.to_nat r).
Proof.
  unfold zeros; destruct ((r <? 0)%Z || (c <? 0)%Z); [discriminate|].
  intros H; injection H as <-; split; [|reflexivity]; split.
  - apply repeat_length.
  - apply Forall_forall; intros row Hrow.
    apply repeat_spec in Hrow; subst; apply repeat_length.
Qed.

Lemma index_lt len i k : index len i = inr k -> (k < len)%nat.
Proof.
  unfold index.
  destruct (Z.leb_spec 0 i), (Z.ltb_spec i (Z.of_nat len)),
    (Z.leb_spec (- Z.of_nat len) i); intros Hk; try discriminate Hk;
    injection Hk as <-; lia.
Qed.

Lemma set_nth_shaped r c g k row :
  shaped r c g -> length row = c -> shaped r c (set_nth k row g).
Proof.
  intros [Hl Hf] Hrow; split; [rewrite set_nth_length; exact Hl|].
  clear Hl; revert k; induction Hf as [|x g Hx Hf IH]; intros [|k]; simpl;
    constructor; auto.
Qed.

Lemma add_cell_shaped r c b i j v b' :
  shaped r c b -> add_cell b i j v = inr b' -> shaped r c b'.
Proof.
  intros Hb; unfold add_cell.
  destruct (index (length b) i) as [e|ri] eqn:Ei; simpl; [discriminate|].
  destruct (index (length (nth ri b [])) j) as [e|cj] eqn:Ej; simpl;
    [discriminate|].
  intros H; injection H as <-.
  apply set_nth_shaped; [exact Hb|].
  rewrite set_nth_length; apply (shaped_row r c b ri Hb).
  apply index_lt in Ei; destruct Hb as [Hl _]; lia.
Qed.

(** Incrementing a cell of [a + b] is incrementing it in [b]. *)
Lemma add_cell_plus r c a b i j v :
  shaped r c a -> shaped r c b ->
  add_cell (grid_add a b) i j v = plus_result a (add_cell b i j v).
Proof.
  intros Ha Hb.
  pose proof (grid_add_shaped r c a b Ha Hb) as Hab.
  unfold add_cell.
  replace (length (grid_add a b)) with (length b)
    by (destruct Hab, Hb; congruence).
  destruct (index (length b) i) as [e|ri] eqn:Ei; simpl; [reflexivity|].
  assert (Hri : (ri < r)%nat)
    by (apply index_lt in Ei; destruct Hb as [Hl _]; lia).
  rewrite (shaped_row r c _ ri Hab Hri), (shaped_row r c _ ri Hb Hri).
  destruct (index c j) as [e|cj] eqn:Ej; simpl; [reflexivity|].
  assert (Hcj : (cj < c)%nat) by (apply index_lt in Ej; exact Ej).
  pose proof (shaped_row r c a ri Ha Hri) as Lra.
  pose proof (shaped_row r c b ri Hb Hri) as Lrb.
  unfold ret, grid_add.
  rewrite (zip_with_set_nth _ a b ri _ []) by (destruct Ha; lia).
  rewrite (zip_with_nth _ a b ri [] [] []) by (destruct Ha, Hb; lia).
  rewrite (zip_with_set_nth _ _ _ cj _ 0) by lia.
  rewrite (zip_with_nth _ _ _ cj 0 0 0) by lia.
  rewrite Qcplus_assoc; reflexivity.
Qed.

(** A loop whose body acts on [a + b] as on [b] does so as a whole. *)
Lemma for_each_plus {X} (body : Grid -> X -> exc Grid) r c :
  (forall a b x, shaped r c a -> shaped r c b ->
                 body (grid_add a b) x = plus_result a (body b x)) ->
  (forall b x b', shaped r c b -> body b x = inr b' -> shaped r c b') ->
  forall xs a b,
    shaped r c a -> shaped r c b ->
    for_each body xs (grid_add a b) = plus_result a (for_each body xs b)
    /\ (forall b', for_each body xs b = inr b' -> shaped r c b').
Proof.
  intros Hplus Hshape xs; induction xs as [|x xs IH]; intros a b Ha Hb;
    simpl.
  - split; [reflexivity|intros b' H; injection H as <-; exact Hb].
  - rewrite (Hplus a b x Ha Hb).
    destruct (body b x) as [e|b1] eqn:E; simpl.
    + split; [reflexivity|discriminate].
    + apply IH; [exact Ha|apply (Hshape b x b1 Hb E)].
Qed.

Lemma bin_atom_plus self ts v r c a b atom :
  shaped r c a -> shaped r c b ->
  bin_atom self ts v (grid_add a b) atom
  = plus_result a (bin_atom self ts v b atom).
Proof.
  intros Ha Hb; unfold bin_atom.
  destruct (fractions ts atom) as [m1 m2]; apply (add_cell_plus r c); auto.
Qed.

Lemma bin_atom_shaped self ts v r c b atom b' :
  shaped r c b -> bin_atom self ts v b atom = inr b' -> shaped r c b'.
Proof.
  unfold bin_atom; destruct (fractions ts atom) as [m1 m2].
  apply add_cell_shaped.
Qed.

Lemma atoms_plus self ts v r c atoms a b :
  shaped r c a -> shaped r c b ->
  for_each (bin_atom self ts v) atoms (grid_add a b)
  = plus_result a (for_each (bin_atom self ts v) atoms b)
  /\ (forall b', for_each (bin_atom self ts v) atoms b = inr b' ->
                 shaped r c b').
Proof.
  apply for_each_plus; intros.
  - apply (bin_atom_plus _ _ _ r c); assumption.
  - eapply bin_atom_shaped; eassumption.
Qed.

Lemma bin_frame_plus self r c a b ts :
  shaped r c a -> shaped r c b ->
  bin_frame self (grid_add a b) ts = plus_result a (bin_frame self b ts).
Proof. intros Ha Hb; apply (atoms_plus _ _ _ r c); assumption. Qed.

Lemma bin_frame_shaped self r c b ts b' :
  shaped r c b -> bin_frame self b ts = inr b' -> shaped r c b'.
Proof.
  intros Hb H; unfold bin_frame in H.
  eapply (proj2 (atoms_plus _ _ _ r c _ b b Hb Hb)); exact H.
Qed.

Lemma frames_plus self r c trajectory a b :
  shaped r c a -> shaped r c b ->
  for_each (bin_frame self) trajectory (grid_add a b)
  = plus_result a (for_each (bin_frame self) trajectory b)
  /\ (forall b', for_each (bin_frame self) trajectory b = inr b' ->
                 shaped r c b').
Proof.
  apply for_each_plus; intros.
  - apply (bin_frame_plus _ r c); assumption.
  - eapply bin_frame_shaped; eassumption.
Qed.

(** Accumulating over two ranges laid end to end: the second range
    adds to the grid of the first what it adds to an empty grid. *)
Lemma accumulate_app self t1 t2 :
  accumulate self (t1 ++ t2)
  = (g1 <- accumulate self t1 ;; plus_result g1 (accumulate self t2)).
Proof.
  unfold accumulate.
  destruct (zeros (n1 self) (n2 self)) as [e|z] eqn:Ez; simpl;
    [reflexivity|].
  apply zeros_shaped in Ez as [Hz Ez].
  rewrite for_each_app.
  destruct (for_each (bin_frame self) t1 z) as [e|g1] eqn:E1; simpl;
    [reflexivity|].
  assert (Hg1 : shaped (Z.to_nat (n1 self)) (Z.to_nat (n2 self)) g1).
  { eapply (proj2 (frames_plus self _ _ t1 z z Hz Hz)); exact E1. }
  rewrite <- (grid_add_zeros_r _ _ g1 Hg1) at 1; rewrite <- Ez.
  apply (frames_plus self _ _ t2 g1 z Hg1 Hz).
Qed.

Lemma fold_grid_add_shift a b gs :
  grid_add a (fold_left grid_add gs b) = fold_left grid_add gs (grid_add a b).
Proof.
  revert b; induction gs as [|g gs IH]; intros b; simpl; [reflexivity|].
  rewrite IH, grid_add_assoc; reflexivity.
Qed.

Lemma map_plus_0 (g : Grid) : map (map (Qcplus 0)) g = g.
Proof.
  induction g as [|row g IH]; simpl; [reflexivity|].
  rewrite IH; f_equal.
  induction row as [|x row IHr]; simpl; [reflexivity|].
  rewrite IHr, Qcplus_0_l; reflexivity.
Qed.

Lemma fold_nd_add_array gs a :
  fold_left nd_add gs (Array2 a) = Array2 (fold_left grid_add gs a).
Proof.
  revert a; induction gs as [|g gs IH]; intros a; simpl;
    [reflexivity|apply IH].
Qed.

(** [sum] of a non-empty list of grids. *)
Lemma py_sum_cons g gs :
  py_sum (g :: gs) = Array2 (fold_left grid_add gs g).
Proof.
  unfold py_sum; simpl; rewrite map_plus_0; apply fold_nd_add_array.
Qed.

Lemma row_add_swap s (x y : list Qc) :
  zip_with Qcplus (map (Qcplus s) x) y = zip_with Qcplus (map (Qcplus s) y) x.
Proof.
  revert y; induction x as [|a x IH]; intros [|b y]; simpl; auto.
  rewrite IH; f_equal.
  rewrite <- !Qcplus_assoc; f_equal; apply Qcplus_comm.
Qed.

Lemma nd_add_swap acc x y :
  nd_add (nd_add acc x) y = nd_add (nd_add acc y) x.
Proof.
  destruct acc as [s|a]; simpl; f_equal.
  - unfold grid_add; revert y.
    induction x as [|rx x IH]; intros [|ry y]; simpl; auto.
    rewrite IH, row_add_swap; reflexivity.
  - rewrite <- !grid_add_assoc; f_equal; apply grid_add_comm.
Qed.

(** The sum does not depend on the order in which the grids were
    appended. *)
Lemma py_sum_permutation gs gs' :
  Permutation gs gs' -> py_sum gs = py_sum gs'.
Proof.
  unfold py_sum; generalize (Scalar 0).
  intros acc H; revert acc.
  induction H as [|g gs gs' _ IH|x y gs|gs1 gs2 gs3 _ IH1 _ IH2];
    intros acc; simpl.
  - reflexivity.
  - apply IH.
  - rewrite nd_add_swap; reflexivity.
  - rewrite IH1; apply IH2.
Qed.

Lemma accumulate_concat self chunks grids c g :
  accumulate self c = inr g ->
  Forall2 (fun slices g' => accumulate self slices = inr g') chunks grids ->
  accumulate self (concat (c :: chunks)) = inr (fold_left grid_add grids g).
Proof.
  intros Hc H; revert c g Hc.
  induction H as [|c' g' chunks grids Hc' _ IH]; intros c g Hc.
  - simpl; rewrite app_nil_r; exact Hc.
  - change (concat (c :: c' :: chunks)) with (c ++ concat (c' :: chunks)).
    rewrite accumulate_app, Hc; cbn [bind].
    rewrite (IH c' g' Hc'); cbn [plus_result].
    rewrite fold_grid_add_shift; reflexivity.
Qed.

Lemma do2dgrid_accumulate self slices l g :
  do2dgrid self slices l = inr (l ++ [g])%list
  <-> accumulate self slices = inr g.
Proof.
  unfold do2dgrid; destruct (accumulate self slices) as [e|g0]; simpl.
  - split; discriminate.
  - split; intros H; injection H as H.
    + apply app_inv_head in H; injection H as ->; reflexivity.
    + subst; reflexivity.
Qed.

Lemma run_processes_all self chunks grids :
  Forall2 (fun slices g => accumulate self slices = inr g) chunks grids ->
  run_processes self chunks = grids.
Proof.
  unfold run_processes.
  enough (G : forall l,
    Forall2 (fun slices g => accumulate self slices = inr g) chunks grids ->
    fold_left
      (fun final_grid slices =>
         match do2dgrid self slices final_grid with
         | inr l' => l'
         | inl _ => final_grid
         end) chunks l = (l ++ grids)%list) by (apply (G [])).
  intros l H; revert l.
  induction H as [|c g chunks grids Hc _ IH]; intros l; cbn [fold_left].
  - rewrite app_nil_r; reflexivity.
  - rewrite (proj2 (do2dgrid_accumulate self c l g) Hc).
    rewrite IH, <- app_assoc; reflexivity.
Qed.

(** C7.  Cut a frame set into contiguous subranges in any way and run
    [do2dgrid] on each of them on its own.  If each run yields its
    partial grid, then a single run over the whole frame set yields a
    grid too, and summing the partial grids, collected in any order,
    gives exactly that grid.  The processes of [dmap_multiprocessing]
    collect these partial grids. *)
Theorem partial_grids_sum_to_single_pass :
  forall (self : Density.t) (chunks : list Trajectory)
         (grids grids' : list Grid),
    chunks <> [] ->
    Forall2 (fun slices g => do2dgrid self slices [] = inr [g]) chunks grids ->
    Permutation grids grids' ->
    exists G : Grid,
      do2dgrid self (concat chunks) [] = inr [G] /\
      py_sum grids' = Array2 G /\
      run_processes self chunks = grids.
Proof.
  intros self chunks grids grids' Hne H HP.
  assert (H' : Forall2 (fun slices g => accumulate self slices = inr g)
                       chunks grids).
  { eapply Forall2_impl; [|exact H]; intros c g Hcg.
    apply (do2dgrid_accumulate self c [] g); exact Hcg. }
  destruct H' as [|c g chunks grids Hc H']; [contradiction|].
  exists (fold_left grid_add grids g); split; [|split].
  - apply (do2dgrid_accumulate self _ [] _).
    apply accumulate_concat; assumption.
  - rewrite <- (py_sum_permutation _ _ HP); apply py_sum_cons.
  - apply run_processes_all; constructor; assumption.
Qed.

(** Conversely, when the single run succeeds, so does the run on every
    subrange. *)
Lemma single_pass_splits self chunks G :
  accumulate self (concat chunks) = inr G ->
  exists grids,
    Forall2 (fun slices g => accumulate self slices = inr g) chunks grids.
Proof.
  revert G; induction chunks as [|c chunks IH]; intros G H.
  - exists []; constructor.
  - simpl in H; rewrite accumulate_app in H.
    destruct (accumulate self c) as [e|g] eqn:Ec; simpl in H;
      [discriminate|].
    destruct (accumulate self (concat chunks)) as [e|G'] eqn:E; simpl in H;
      [discriminate|].
    destruct (IH G' eq_refl) as [grids Hg].
    exists (g :: grids); constructor; assumption.
Qed.

Lemma partial_grids_sum_to_single_pass_witness :
  exists G : Grid,
    do2dgrid density_2x3 (concat [[frame_2x3]; [frame_2x3; frame_2x3]]) []
    = inr [G] /\
    grid_values G = [[0; 0; 0]; [0; 75000; 0]]%Q.
Proof.
  destruct (accumulate density_2x3 [frame_2x3]) as [e|g1] eqn:E1;
    [vm_compute in E1; discriminate E1|].
  destruct (accumulate density_2x3 [frame_2x3; frame_2x3]) as [e|g2] eqn:E2;
    [vm_compute in E2; discriminate E2|].
  destruct (partial_grids_sum_to_single_pass density_2x3
              [[frame_2x3]; [frame_2x3; frame_2x3]] [g1; g2] [g2; g1])
    as (G & HG & _ & _).
  - discriminate.
  - repeat constructor;
      apply (do2dgrid_accumulate density_2x3 _ [] _); assumption.
  - apply perm_swap.
  - exists G; split; [exact HG|].
    vm_compute in HG; injection HG as <-; vm_compute; reflexivity.
Defined.

End Merge.

(** ** Normalisation of the summed grid *)

Section Normalization.

Import Py Density Dmap Props Fixtures.
Local Open Scope Qc_scope.

Lemma fold_left_plus_from {A} (f : A -> Qc) (l : list A) (acc : Qc) :
  fold_left (fun b x => b + f x) l acc
  = acc + fold_right (fun x b => f x + b) 0 l.
Proof.
  revert acc; induction l as [|x l IH]; intros acc; simpl.
  - rewrite Qcplus_0_r; reflexivity.
  - rewrite IH, Qcplus_assoc; reflexivity.
Qed.

(** The averaged box length the code computes is the one of the
    specification. *)
Lemma box_average (len : vec3 -> Qc) (u : Trajectory) :
  fold_left (fun b ts => b + len (dimensions ts) * Num.tenth) u 0
  / Num.of_Z (Z.of_nat (length u))
  = Spec.avg_box len u.
Proof.
  unfold Spec.avg_box.
  rewrite (fold_left_plus_from (fun ts => len (dimensions ts) * Num.tenth)).
  rewrite Qcplus_0_l; reflexivity.
Qed.

Lemma ticks_range (avg : Qc) (n count : Z) :
  map (fun i => (Num.of_Z i * avg) / Num.of_Z n) (range0 count)
  = Spec.ticks avg n (Z.to_nat count).
Proof. unfold range0, Spec.ticks; rewrite map_map; reflexivity. Qed.

Lemma ticks_length avg n count : length (Spec.ticks avg n count) = count.
Proof. unfold Spec.ticks; rewrite length_map, length_seq; reflexivity. Qed.

Lemma cons_each_shaped (values : list Qc) (g : Grid) c :
  length values = length g ->
  Forall (fun row => length row = c) g ->
  shaped (length g) (S c) (cons_each values g).
Proof.
  intros Hl Hf; revert values Hl.
  induction Hf as [|row g Hrow Hf IH]; intros [|v values] Hl;
    try discriminate Hl.
  - split; [reflexivity|constructor].
  - destruct (IH values ltac:(simpl in Hl; lia)) as [L F].
    split; simpl; [rewrite L; reflexivity|].
    constructor; [simpl; rewrite Hrow; reflexivity|exact F].
Qed.

Lemma map_map_shaped (f : Qc -> Qc) r c g :
  shaped r c g -> shaped r c (map (map f) g).
Proof.
  intros [L F]; split; [rewrite length_map; exact L|].
  apply Forall_map; eapply Forall_impl; [|exact F].
  intros row Hrow; simpl; rewrite length_map; exact Hrow.
Qed.

Lemma normalization_steps (self : Density.t) (final_grid : Grid) :
  universe self <> [] ->
  normalization self (Array2 final_grid)
  = (grid <- insert_row (Z.to_nat (n2 self))
               (map (map (fun x =>
                            x / Num.of_Z (Z.of_nat (length (universe self)))))
                    final_grid)
               (Spec.ticks (Spec.avg_box vx (universe self)) (n1 self)
                           (Z.to_nat (n1 self))) ;;
     grid <- insert_col grid
               (0 :: Spec.ticks (Spec.avg_box vy (universe self)) (n2 self)
                                (Z.to_nat (n1 self))) ;;
     ret (map (map Num.around5) grid)).
Proof.
  intros Hu; unfold normalization.
  destruct (universe self) as [|ts u] eqn:Eu; [contradiction|].
  cbv iota; rewrite <- Eu, !box_average, !ticks_range; reflexivity.
Qed.

(** [rint] returns an integer at distance at most 1/2. *)
Lemma rint_nearest (x : Qc) :
  (Qabs (x - inject_Z (Num.rint x)) <= 1 # 2)%Q.
Proof.
  unfold Num.rint.
  pose proof (Qfloor_le x) as Hlo.
  pose proof (Qlt_floor x) as Hhi.
  destruct (Qcompare_spec (this x - inject_Z (Qfloor x))%Q (1 # 2)) as [E|E|E];
    try destruct (Z.even (Qfloor x));
    rewrite ?inject_Z_plus in *; change (inject_Z 1) with 1%Q in *;
    apply Qabs_case; intros _; Lqa.lra.
Qed.

Lemma around5_five_decimals x : five_decimals (Num.around5 x).
Proof. eexists; reflexivity. Qed.

(** C2, as the code has it. For a square grid ([n1 = n2 = n])
    normalisation divides every cell by the number of frames, puts the
    row [tick_x[j] = j * avg_box_x / n1] on top and the column
    [tick_y[i] = i * avg_box_y / n2] in front, both of [n] entries and
    after a leading 0, and rounds everything to 5 decimals: the result
    has shape [(n + 1, n + 1)]. *)
Theorem normalization_square_grid :
  forall (self : Density.t) (final_grid : Grid),
    universe self <> [] ->
    n1 self = n2 self ->
    shaped (Z.to_nat (n1 self)) (Z.to_nat (n2 self)) final_grid ->
    let n := Z.to_nat (n1 self) in
    let frames := Num.of_Z (Z.of_nat (length (universe self))) in
    let tick_x := Spec.ticks (Spec.avg_box vx (universe self)) (n1 self) n in
    let tick_y := Spec.ticks (Spec.avg_box vy (universe self)) (n2 self) n in
    exists grid : Grid,
      normalization self (Array2 final_grid) = inr grid /\
      grid = map (map Num.around5)
               ((0 :: tick_x)
                  :: cons_each tick_y
                       (map (map (fun x => x / frames)) final_grid)) /\
      shaped (n + 1) (n + 1) grid /\
      Forall (Forall five_decimals) grid.
Proof.
  intros self final_grid Hu Hn Hs n frames tick_x tick_y.
  pose proof (map_map_shaped (fun x => x / frames) _ _ _ Hs) as Hd.
  rewrite <- Hn in Hd; fold n in Hd.
  set (data := map (map (fun x => x / frames)) final_grid) in *.
  assert (E : normalization self (Array2 final_grid)
              = inr (map (map Num.around5)
                       ((0 :: tick_x) :: cons_each tick_y data))).
  { rewrite (normalization_steps self final_grid Hu).
    fold n; fold frames; fold data; fold tick_x; fold tick_y.
    unfold insert_row.
    rewrite <- Hn; fold n.
    replace (Nat.eqb (length tick_x) n) with true
      by (symmetry; apply Nat.eqb_eq; apply ticks_length).
    cbn [bind ret]; unfold insert_col.
    replace (Nat.eqb (length (0 :: tick_y)) (length (tick_x :: data)))
      with true.
    - reflexivity.
    - symmetry; apply Nat.eqb_eq; simpl; f_equal.
      unfold tick_y; rewrite ticks_length; destruct Hd as [-> _]; reflexivity. }
  eexists; split; [exact E|]; split; [reflexivity|]; split.
  - apply map_map_shaped.
    replace (n + 1)%nat with (S n) by lia.
    destruct Hd as [Ld Fd].
    destruct (cons_each_shaped tick_y data n) as [L F];
      [unfold tick_y; rewrite ticks_length; lia|exact Fd|].
    split; simpl; [rewrite L, Ld; reflexivity|].
    constructor; [simpl; unfold tick_x; rewrite ticks_length; reflexivity|].
    exact F.
  - apply Forall_map, Forall_forall; intros row _.
    apply Forall_map, Forall_forall; intros x _.
    apply around5_five_decimals.
Qed.

(** When the grid is not square, and has more than one row, the row of
    [n1] ticks does not fit the [n2] columns. *)
Lemma normalization_not_square (self : Density.t) (final_grid : Grid) :
  universe self <> [] ->
  Z.to_nat (n1 self) <> Z.to_nat (n2 self) ->
  Z.to_nat (n1 self) <> 1%nat ->
  normalization self (Array2 final_grid) = inl ValueError.
Proof.
  intros Hu Hn H1; rewrite (normalization_steps self final_grid Hu).
  unfold insert_row.
  pose proof (ticks_length (Spec.avg_box vx (universe self)) (n1 self)
                (Z.to_nat (n1 self))) as L.
  destruct (Nat.eqb_spec
              (length (Spec.ticks (Spec.avg_box vx (universe self)) (n1 self)
                         (Z.to_nat (n1 self))))
              (Z.to_nat (n2 self))) as [E|_]; [congruence|].
  destruct (Spec.ticks (Spec.avg_box vx (universe self)) (n1 self)
              (Z.to_nat (n1 self))) as [|v [|w l]]; simpl in L;
    try reflexivity.
  exfalso; apply H1; symmetry; exact L.
Qed.

Lemma normalization_square_grid_witness :
  exists grid : Grid,
    normalization density_5x5 (Array2 (repeat (repeat 0 5%nat) 5%nat))
    = inr grid /\
    shaped 6 6 grid.
Proof.
  destruct (normalization_square_grid density_5x5
              (repeat (repeat 0 5%nat) 5%nat))
    as (grid & E & _ & S & _).
  - discriminate.
  - reflexivity.
  - split; [reflexivity|repeat constructor].
  - exists grid; split; [exact E|exact S].
Defined.

(** Counterexample to C2 as the specification words it: it fails for the
    2 x 3 grid of a 0.4 x 0.6 box: the tick row has 2 entries for 3
    columns and the insertion raises. *)
Lemma normalization_2x3_raises :
  Density.init [frame_2x3] [0%nat] = inr density_2x3 /\
  (n1 density_2x3, n2 density_2x3) = (2, 3)%Z /\
  shaped 2 3 (repeat (repeat 0 3%nat) 2%nat) /\
  normalization density_2x3 (Array2 (repeat (repeat 0 3%nat) 2%nat))
  = inl ValueError /\
  result (dmap_multiprocessing [frame_2x3] [0%nat] 1) = inl ValueError.
Proof.
  split; [vm_compute; reflexivity|].
  split; [reflexivity|].
  split; [split; [reflexivity|repeat constructor]|].
  split; vm_compute; reflexivity.
Qed.

End Normalization.

(** ** Reduction of a completed series *)

Section Reduction.

Import OrderParameter Props Fixtures.
Local Open Scope R_scope.

Lemma sum_upto_ext n f g :
  (forall i, (i < n)%nat -> f i = g i) -> Spec.sum_upto n f = Spec.sum_upto n g.
Proof.
  unfold Spec.sum_upto; intros H.
  assert (G : forall l, (forall i, In i l -> f i = g i) ->
              fold_right (fun i acc => f i + acc) 0 l
              = fold_right (fun i acc => g i + acc) 0 l).
  { induction l as [|i l IH]; intros Hl; simpl; [reflexivity|].
    rewrite (Hl i (or_introl eq_refl)), IH; [reflexivity|].
    intros j Hj; apply Hl; right; exact Hj. }
  apply G; intros i Hi; apply in_seq in Hi; apply H; lia.
Qed.

Lemma sum_upto_S n f :
  Spec.sum_upto (S n) f = f 0%nat + Spec.sum_upto n (fun i => f (S i)).
Proof.
  unfold Spec.sum_upto; simpl; f_equal.
  rewrite <- seq_shift.
  induction (seq 0 n) as [|i l IH]; simpl; [reflexivity|].
  rewrite IH; reflexivity.
Qed.

Lemma np_sum_from xs acc :
  fold_left Rplus xs acc = acc + fold_right Rplus 0 xs.
Proof.
  revert acc; induction xs as [|x xs IH]; intros acc; simpl.
  - ring.
  - rewrite IH; ring.
Qed.

(** Summing the images of a list is summing over its indices. *)
Lemma sum_map_upto {A} (g : A -> R) (l : list A) (d : A) :
  fold_right Rplus 0 (map g l)
  = Spec.sum_upto (length l) (fun i => g (nth i l d)).
Proof.
  induction l as [|x l IH]; [reflexivity|].
  cbn [length map fold_right]; rewrite sum_upto_S, IH; reflexivity.
Qed.

Lemma np_sum_upto xs :
  np_sum xs = Spec.sum_upto (length xs) (fun i => nth i xs 0).
Proof.
  unfold np_sum; rewrite np_sum_from, Rplus_0_l.
  rewrite <- (map_id xs) at 1; exact (sum_map_upto (fun x => x) xs 0).
Qed.

Lemma np_sum_map_upto (g : R -> R) xs :
  np_sum (map g xs) = Spec.sum_upto (length xs) (fun i => g (nth i xs 0)).
Proof.
  unfold np_sum; rewrite np_sum_from, Rplus_0_l; apply sum_map_upto.
Qed.

Lemma concat_sum series :
  fold_right Rplus 0 (concat series)
  = fold_right Rplus 0 (map (fold_right Rplus 0) series).
Proof.
  induction series as [|row series IH]; simpl; [reflexivity|].
  rewrite <- IH; clear IH.
  induction row as [|x row IHr]; simpl; [ring|rewrite IHr; ring].
Qed.

Lemma concat_length residues series :
  rectangular residues series ->
  length (concat series) = (length series * residues)%nat.
Proof.
  induction 1 as [|row series Hrow _ IH]; simpl; [reflexivity|].
  rewrite length_app, IH, Hrow; reflexivity.
Qed.

Lemma np_mean_all_grand residues series :
  rectangular residues series ->
  np_mean_all series = Spec.grand_mean series (length series) residues.
Proof.
  intros Hrect; unfold np_mean_all, np_mean, Spec.grand_mean.
  rewrite (concat_length residues series Hrect); f_equal.
  unfold np_sum; rewrite np_sum_from, Rplus_0_l, concat_sum.
  rewrite (sum_map_upto _ series []).
  apply sum_upto_ext; intros f Hf.
  assert (Hlen : length (nth f series []) = residues).
  { unfold rectangular in Hrect; rewrite Forall_forall in Hrect.
    apply Hrect, nth_In; exact Hf. }
  rewrite <- (map_id (nth f series [])) at 1.
  rewrite (sum_map_upto (fun x => x) _ 0), Hlen; reflexivity.
Qed.

Lemma add_rows_length r1 r2 :
  length (add_rows r1 r2) = Nat.min (length r1) (length r2).
Proof.
  revert r2; induction r1 as [|a r1 IH]; intros [|b r2]; simpl; auto.
Qed.

Lemma add_rows_nth r1 r2 k :
  (k < length r1)%nat -> (k < length r2)%nat ->
  nth k (add_rows r1 r2) 0 = nth k r1 0 + nth k r2 0.
Proof.
  revert r2 k; induction r1 as [|a r1 IH]; intros [|b r2] [|k]; simpl;
    intros H1 H2; try lia; [reflexivity|].
  apply IH; lia.
Qed.

Lemma fold_add_rows residues rows row :
  length row = residues ->
  rectangular residues rows ->
  length (fold_left add_rows rows row) = residues /\
  forall k, (k < residues)%nat ->
    nth k (fold_left add_rows rows row) 0
    = nth k row 0 + fold_right Rplus 0 (map (fun r => nth k r 0) rows).
Proof.
  intros Hrow Hrect; revert row Hrow.
  induction Hrect as [|r rows Hr _ IH]; intros row Hrow; simpl.
  - split; [exact Hrow|intros; ring].
  - destruct (IH (add_rows row r)) as [L N].
    { rewrite add_rows_length, Hrow, Hr; apply Nat.min_id. }
    split; [exact L|].
    intros k Hk; rewrite (N k Hk), add_rows_nth by lia; ring.
Qed.

Lemma np_mean_axis0_residue residues series :
  series <> [] ->
  rectangular residues series ->
  np_mean_axis0 series
  = map (Spec.residue_mean series (length series)) (seq 0 residues).
Proof.
  intros Hne Hrect.
  destruct series as [|row rows]; [contradiction|].
  inversion Hrect as [|? ? Hrow Hrows]; subst.
  destruct (fold_add_rows (length row) rows row eq_refl Hrows) as [L N].
  apply (nth_ext _ _ 0 0).
  - unfold np_mean_axis0; rewrite !length_map, length_seq; exact L.
  - unfold np_mean_axis0; rewrite length_map, L; intros k Hk.
    rewrite (nth_indep _ 0 (0 / INR (length (row :: rows))))
      by (rewrite length_map, L; exact Hk).
    rewrite (map_nth (fun s => s / INR (length (row :: rows)))).
    rewrite (nth_indep
               (map (Spec.residue_mean (row :: rows) (length (row :: rows)))
                    (seq 0 (length row)))
               0 (Spec.residue_mean (row :: rows)
                    (length (row :: rows)) 0%nat))
      by (rewrite length_map, length_seq; exact Hk).
    rewrite (map_nth (Spec.residue_mean (row :: rows) (length (row :: rows)))).
    rewrite seq_nth by exact Hk; simpl Nat.add.
    unfold Spec.residue_mean; f_equal.
    rewrite (N k Hk).
    change (length (row :: rows)) with (S (length rows)).
    rewrite sum_upto_S; unfold Spec.entry at 1; cbn [nth]; f_equal.
    rewrite (sum_map_upto _ rows []); reflexivity.
Qed.

Lemma np_std_population xs : np_std xs = Spec.population_std xs.
Proof.
  unfold np_std, Spec.population_std, Spec.population_variance, np_mean.
  rewrite length_map, np_sum_map_upto, np_sum_upto.
  f_equal; unfold Rdiv; f_equal.
  apply sum_upto_ext; intros i _; apply pow2_abs.
Qed.

(** C5.  For a completed series of [frames] x [residues] values the
    reduction returns the grand mean of all the values as [avg],
    stores the mean of each residue across the frames in [means],
    returns the population standard deviation of these means (squared
    deviations divided by the number of residues) as [std], and
    [std / sqrt residues] as [stem]. *)
Theorem get_avg_std_stem_OP_reduction :
  forall (self : OrderParameter.t) (frames residues : nat),
    (0 < frames)%nat -> (0 < residues)%nat ->
    length (traj self) = frames ->
    rectangular residues (traj self) ->
    let per_residue :=
      map (Spec.residue_mean (traj self) frames) (seq 0 residues) in
    let '(self', (avg, std, stem)) := get_avg_std_stem_OP self in
    means self' = Some per_residue /\
    avg = Spec.grand_mean (traj self) frames residues /\
    std = Spec.population_std per_residue /\
    stem = Spec.population_std per_residue / sqrt (INR residues).
Proof.
  intros self frames residues HF HR Hlen Hrect per_residue.
  unfold get_avg_std_stem_OP.
  assert (Hne : traj self <> []) by (destruct (traj self); simpl in *;
                                     [lia|discriminate]).
  pose proof (np_mean_axis0_residue residues (traj self) Hne Hrect) as Hm.
  rewrite Hlen in Hm; fold per_residue in Hm.
  rewrite Hm, np_std_population, (np_mean_all_grand residues _ Hrect), Hlen.
  cbn [means].
  repeat split.
  unfold per_residue; rewrite length_map, length_seq; reflexivity.
Qed.

Lemma get_avg_std_stem_OP_reduction_witness :
  let '(self', (avg, std, stem)) := get_avg_std_stem_OP op_walked in
  means self'
  = Some (map (Spec.residue_mean (traj op_walked) 2) (seq 0 2)) /\
  avg = Spec.grand_mean (traj op_walked) 2 2.
Proof.
  pose proof (get_avg_std_stem_OP_reduction op_walked 2 2
                ltac:(lia) ltac:(lia) eq_refl
                ltac:(repeat constructor)) as H.
  unfold get_avg_std_stem_OP in *.
  destruct H as (Hm & Ha & _ & _); split; assumption.
Defined.

(** On the per-residue means [1; 3] the deviation returned is 1, the
    population value; the sample-corrected one would be [sqrt 2]. *)
Lemma np_std_1_3 : np_std [1; 3] = 1.
Proof.
  rewrite np_std_population.
  unfold Spec.population_std, Spec.population_variance, Spec.sum_upto.
  simpl.
  replace ((1 - (1 + (3 + 0)) / (1 + 1)) * ((1 - (1 + (3 + 0)) / (1 + 1)) * 1)
           + ((3 - (1 + (3 + 0)) / (1 + 1))
              * ((3 - (1 + (3 + 0)) / (1 + 1)) * 1) + 0)) with 2 by field.
  replace (2 / (1 + 1)) with 1 by field.
  apply sqrt_1.
Qed.

End Reduction.

(** ** Order-parameter engine: more on the per-frame metrics *)

Section MetricsMore.

Import Py OrderParameter Props Notions Fixtures.
Local Open Scope R_scope.

Lemma square_sum_nonneg v : 0 <= square_sum v.
Proof. unfold square_sum; nra. Qed.

Lemma z_square_le v : z v ^ 2 <= square_sum v.
Proof. unfold square_sum; nra. Qed.

Lemma calc_OP_bounds self a0 a1 S :
  0 < square_sum (bond a0 a1) ->
  calc_OP self [a0; a1] = inr S -> - (1 / 2) <= S <= 1.
Proof.
  intros Hpos H.
  destruct (Rle_dec (square_sum (bond a0 a1)) (9 / 4)) as [Hle|Hgt];
    [|rewrite calc_OP_long in H by lra; discriminate H].
  rewrite (calc_OP_short self a0 a1 Hle) in H.
  assert (HS : S = (5 / 10) * (3 * (z (bond a0 a1) ^ 2
                                    / square_sum (bond a0 a1)) - 1))
    by congruence.
  rewrite HS; clear H HS.
  pose proof (z_square_le (bond a0 a1)) as Hz.
  set (d2 := square_sum (bond a0 a1)) in *.
  set (z2 := z (bond a0 a1) ^ 2) in *.
  assert (H0 : 0 <= z2) by (unfold z2; nra).
  assert (Hq : 0 <= z2 / d2 <= 1).
  { split.
    - apply Rmult_le_pos; [exact H0|].
      apply Rlt_le, Rinv_0_lt_compat; exact Hpos.
    - apply (Rmult_le_reg_r d2); [exact Hpos|].
      unfold Rdiv; rewrite Rmult_assoc, Rinv_l by lra; lra. }
  lra.
Qed.

(** X1.  For two distinct atoms no further apart than the bond limit,
    [calc_OP] returns a value between -1/2 and 1. *)
Theorem calc_OP_range :
  forall (self : OrderParameter.t) (a0 a1 : Atom),
    0 < square_sum (bond a0 a1) <= 9 / 4 ->
    exists S : R,
      calc_OP self [a0; a1] = inr S /\ - (1 / 2) <= S <= 1.
Proof.
  intros self a0 a1 [Hpos Hle].
  eexists; split; [apply (calc_OP_short self a0 a1 Hle)|].
  apply (calc_OP_bounds self a0 a1); [exact Hpos|].
  apply calc_OP_short; exact Hle.
Qed.

Lemma calc_OP_range_witness :
  exists S : R,
    calc_OP op_beta1 [atom_at 0 0 0; atom_at 1 0 0] = inr S
    /\ - (1 / 2) <= S <= 1.
Proof.
  apply calc_OP_range.
  rewrite square_sum_from_origin; lra.
Defined.

Lemma bond_swap a0 a1 : bond a1 a0 = opposite (bond a0 a1).
Proof. unfold bond, minus, opposite; simpl; f_equal; ring. Qed.

Lemma square_sum_opposite v : square_sum (opposite v) = square_sum v.
Proof. unfold square_sum, opposite; simpl; ring. Qed.

(** X2.  The order parameter does not depend on which of the two atoms
    comes first: when [calc_OP] returns a value for a pair, it returns
    the same value for the swapped pair. *)
Theorem calc_OP_swap :
  forall (self : OrderParameter.t) (a0 a1 : Atom) (S : R),
    calc_OP self [a0; a1] = inr S ->
    calc_OP self [a1; a0] = inr S.
Proof.
  intros self a0 a1 S H.
  destruct (Rle_dec (square_sum (bond a0 a1)) (9 / 4)) as [Hle|Hgt].
  - rewrite (calc_OP_short self a0 a1 Hle) in H.
    rewrite calc_OP_short
      by (rewrite bond_swap, square_sum_opposite; exact Hle).
    rewrite <- H, bond_swap, square_sum_opposite.
    replace (z (opposite (bond a0 a1)) ^ 2) with (z (bond a0 a1) ^ 2)
      by (unfold opposite; simpl; ring).
    reflexivity.
  - rewrite calc_OP_long in H by lra; discriminate H.
Qed.

Lemma calc_OP_unit_z self n0 r0 n1 r1 :
  calc_OP self [mkAtom n0 r0 (mkXyz 0 0 0); mkAtom n1 r1 (mkXyz 0 0 1)]
  = inr 1.
Proof.
  assert (E : square_sum (bond (mkAtom n0 r0 (mkXyz 0 0 0))
                               (mkAtom n1 r1 (mkXyz 0 0 1))) = 1)
    by (unfold square_sum, bond, minus; simpl; ring).
  rewrite calc_OP_short by (rewrite E; lra).
  rewrite E; f_equal; unfold bond, minus; simpl; field.
Qed.

Lemma calc_OP_along_normal self :
  calc_OP self [atom_at 0 0 0; atom_at 0 0 1] = inr 1.
Proof. apply calc_OP_unit_z. Qed.

Lemma calc_OP_swap_witness :
  calc_OP op_beta1 [atom_at 0 0 1; atom_at 0 0 0] = inr 1.
Proof.
  apply calc_OP_swap, calc_OP_along_normal.
Defined.

Lemma acos_degrees_range c :
  0 <= math_degrees (acos c) <= 180.
Proof.
  pose proof (acos_bound c) as [H0 H1].
  pose proof PI_RGT_0 as HPI.
  unfold math_degrees; split.
  - apply Rmult_le_pos; [exact H0|].
    apply Rlt_le, Rdiv_lt_0_compat; lra.
  - apply (Rmult_le_reg_r PI); [exact HPI|].
    replace (acos c * (180 / PI) * PI) with (acos c * 180) by (field; lra).
    nra.
Qed.

(** The conversion never raises, whatever cosine reaches it. *)
Lemma to_angle_range cos :
  exists angle : R,
    snd (to_angle cos) = inr angle /\ 0 <= angle <= 180.
Proof.
  destruct (Rlt_dec 1 cos) as [Hhi|Hhi].
  { rewrite (to_angle_above cos Hhi); exists 0; simpl; split; [reflexivity|lra]. }
  destruct (Rlt_dec cos (-1)) as [Hlo|Hlo].
  { rewrite (to_angle_below cos Hlo); exists 180; simpl;
      split; [reflexivity|lra]. }
  unfold to_angle, math_acos.
  destruct (Rgt_dec (Rabs cos) 1) as [Hy|_].
  { exfalso; revert Hy; unfold Rabs; destruct (Rcase_abs cos); lra. }
  exists (math_degrees (acos cos)); simpl; split;
    [reflexivity|apply acos_degrees_range].
Qed.

(** X3.  For a residue of two distinct atoms [calc_angle] never
    raises: it returns an angle between 0 and 180 degrees, whatever the
    box height.  (For two atoms at the same place Python divides by a
    zero length and the result is not a number.) *)
Theorem calc_angle_range :
  forall (self : OrderParameter.t) (a0 a1 : Atom) (z_dim : R),
    0 < square_sum (bond a0 a1) ->
    exists angle : R,
      snd (calc_angle self [a0; a1] z_dim) = inr angle
      /\ 0 <= angle <= 180.
Proof.
  intros self a0 a1 z_dim _.
  unfold calc_angle; rewrite getitem_1, getitem_0.
  apply to_angle_range.
Qed.

Lemma calc_angle_range_witness :
  exists angle : R,
    snd (calc_angle op_beta1 [atom_at 0 0 30; atom_at 0 0 31] 45) = inr angle
    /\ 0 <= angle <= 180.
Proof.
  apply calc_angle_range.
  unfold square_sum, bond, minus; simpl; lra.
Defined.

(** X4.  A residue of the lower leaflet (atom A below half the box
    height) gets the angle that a residue of the upper leaflet gets
    for the opposite bond vector. *)
Theorem calc_angle_mirror :
  forall (self : OrderParameter.t) (a0 a1 b0 b1 : Atom) (z_dim : R),
    z (position a0) - z_dim * (5 / 10) < 0 ->
    0 <= z (position b0) - z_dim * (5 / 10) ->
    bond b0 b1 = opposite (bond a0 a1) ->
    calc_angle self [a0; a1] z_dim = calc_angle self [b0; b1] z_dim.
Proof.
  intros self a0 a1 b0 b1 z_dim Hlow Hup Hopp.
  unfold calc_angle; rewrite !getitem_1, !getitem_0.
  fold (bond a0 a1); fold (bond b0 b1).
  rewrite Hopp, square_sum_opposite.
  f_equal.
  unfold math_copysign.
  destruct (Rle_dec 0 (z (position a0) - z_dim * (5 / 10))) as [Hy|_];
    [lra|].
  destruct (Rle_dec 0 (z (position b0) - z_dim * (5 / 10))) as [_|Hn];
    [|lra].
  rewrite Rabs_R1; unfold opposite, Rdiv; simpl; ring.
Qed.

Lemma calc_angle_mirror_witness :
  calc_angle op_beta1 [atom_at 0 0 10; atom_at 0 0 9] 45
  = calc_angle op_beta1 [atom_at 0 0 30; atom_at 0 0 31] 45.
Proof.
  apply calc_angle_mirror.
  - simpl; lra.
  - simpl; lra.
  - unfold bond, minus, opposite; simpl; f_equal; ring.
Defined.

End MetricsMore.

(** ** More on the reduction of a series *)

Section ReductionMore.

Import OrderParameter Props Fixtures MoreFixtures.
Local Open Scope R_scope.

Lemma sum_upto_plus n f g :
  Spec.sum_upto n (fun i => f i + g i) = Spec.sum_upto n f + Spec.sum_upto n g.
Proof.
  unfold Spec.sum_upto; induction (seq 0 n) as [|i l IH]; simpl;
    [ring|rewrite IH; ring].
Qed.

Lemma sum_upto_div n f k :
  Spec.sum_upto n (fun i => f i / k) = Spec.sum_upto n f / k.
Proof.
  unfold Spec.sum_upto; induction (seq 0 n) as [|i l IH]; simpl.
  - unfold Rdiv; ring.
  - rewrite IH; unfold Rdiv; ring.
Qed.

Lemma sum_upto_const n c : Spec.sum_upto n (fun _ => c) = INR n * c.
Proof.
  induction n as [|n IH]; [unfold Spec.sum_upto; simpl; ring|].
  rewrite sum_upto_S, IH, S_INR; ring.
Qed.

Lemma sum_upto_swap n m (f : nat -> nat -> R) :
  Spec.sum_upto n (fun i => Spec.sum_upto m (fun j => f i j))
  = Spec.sum_upto m (fun j => Spec.sum_upto n (fun i => f i j)).
Proof.
  induction n as [|n IH] in f |- *.
  - change (0 = Spec.sum_upto m (fun _ => 0)).
    rewrite sum_upto_const; ring.
  - rewrite sum_upto_S, IH.
    rewrite <- sum_upto_plus.
    apply sum_upto_ext; intros j _; rewrite sum_upto_S; reflexivity.
Qed.

Lemma nth_residue_means series frames residues r :
  (r < residues)%nat ->
  nth r (map (Spec.residue_mean series frames) (seq 0 residues)) 0
  = Spec.residue_mean series frames r.
Proof.
  intros Hr.
  rewrite (nth_indep _ 0 (Spec.residue_mean series frames 0%nat))
    by (rewrite length_map, length_seq; exact Hr).
  rewrite (map_nth (Spec.residue_mean series frames)), seq_nth by exact Hr.
  reflexivity.
Qed.

(** The grand mean is the mean of the per-residue means. *)
Lemma grand_mean_of_means series frames residues :
  (0 < frames)%nat -> (0 < residues)%nat ->
  Spec.grand_mean series frames residues
  = np_mean (map (Spec.residue_mean series frames) (seq 0 residues)).
Proof.
  intros HF HR.
  unfold np_mean; rewrite np_sum_upto, length_map, length_seq.
  rewrite (sum_upto_ext residues _ (Spec.residue_mean series frames))
    by (intros r Hr; apply nth_residue_means; exact Hr).
  unfold Spec.grand_mean, Spec.residue_mean.
  rewrite sum_upto_div, sum_upto_swap, mult_INR.
  field; split; apply not_0_INR; lia.
Qed.

(** X5.  For a completed series of [frames] x [residues] values, the
    average returned by the reduction is the mean of the per-residue
    means it stores in [means]. *)
Theorem avg_is_mean_of_means :
  forall (self : OrderParameter.t) (frames residues : nat),
    (0 < frames)%nat -> (0 < residues)%nat ->
    length (traj self) = frames ->
    rectangular residues (traj self) ->
    let '(self', (avg, _, _)) := get_avg_std_stem_OP self in
    exists per_residue : list R,
      means self' = Some per_residue /\ avg = np_mean per_residue.
Proof.
  intros self frames residues HF HR Hlen Hrect.
  unfold get_avg_std_stem_OP; cbn [means].
  eexists; split; [reflexivity|].
  assert (Hne : traj self <> [])
    by (destruct (traj self); simpl in *; [lia|discriminate]).
  rewrite (np_mean_axis0_residue residues (traj self) Hne Hrect).
  rewrite (np_mean_all_grand residues _ Hrect), Hlen.
  apply grand_mean_of_means; assumption.
Qed.

Lemma avg_is_mean_of_means_witness :
  let '(self', (avg, _, _)) := get_avg_std_stem_OP op_walked in
  exists per_residue : list R,
    means self' = Some per_residue /\ avg = np_mean per_residue.
Proof.
  apply (avg_is_mean_of_means op_walked 2 2);
    [lia|lia|reflexivity|repeat constructor].
Defined.

Lemma np_std_constant xs m :
  xs <> [] ->
  (forall i, (i < length xs)%nat -> nth i xs 0 = m) ->
  np_std xs = 0.
Proof.
  intros Hne Hall.
  assert (Hn : INR (length xs) <> 0)
    by (apply not_0_INR; destruct xs; [contradiction|discriminate]).
  rewrite np_std_population.
  unfold Spec.population_std, Spec.population_variance.
  rewrite (sum_upto_ext _ _ (fun _ => m) Hall), sum_upto_const.
  replace (INR (length xs) * m / INR (length xs)) with m by (field; exact Hn).
  rewrite (sum_upto_ext _ _ (fun _ => 0)), sum_upto_const.
  - replace (INR (length xs) * 0 / INR (length xs)) with 0
      by (field; exact Hn).
    apply sqrt_0.
  - intros i Hi; rewrite (Hall i Hi); ring.
Qed.

(** X6.  When in every frame all the residues have the same value,
    the reduction returns a zero standard deviation and a zero standard
    error, and the average is the mean over the frames of that common
    value. *)
Theorem identical_residues_no_spread :
  forall (self : OrderParameter.t) (residues : nat),
    (0 < residues)%nat ->
    traj self <> [] ->
    Forall (fun row => exists c : R, row = repeat c residues) (traj self) ->
    let '(_, (avg, std, stem)) := get_avg_std_stem_OP self in
    std = 0 /\ stem = 0
    /\ avg = np_mean (map (fun row => nth 0 row 0) (traj self)).
Proof.
  intros self residues HR Hne Hsame.
  assert (Hrect : rectangular residues (traj self)).
  { unfold rectangular; eapply Forall_impl; [|exact Hsame].
    intros row [c ->]; apply repeat_length. }
  assert (HF : (0 < length (traj self))%nat)
    by (destruct (traj self); [contradiction|simpl; lia]).
  assert (Hentry : forall f r, (r < residues)%nat ->
            Spec.entry (traj self) f r = Spec.entry (traj self) f 0).
  { intros f r Hr; unfold Spec.entry.
    destruct (Nat.lt_ge_cases f (length (traj self))) as [Hf|Hf].
    - rewrite Forall_forall in Hsame.
      destruct (Hsame (nth f (traj self) []) (nth_In _ _ Hf)) as [c ->].
      rewrite !nth_repeat_lt by lia; reflexivity.
    - rewrite (nth_overflow (traj self)) by exact Hf.
      destruct r; reflexivity. }
  assert (Hmean : forall r, (r < residues)%nat ->
            Spec.residue_mean (traj self) (length (traj self)) r
            = Spec.residue_mean (traj self) (length (traj self)) 0).
  { intros r Hr; unfold Spec.residue_mean; f_equal.
    apply sum_upto_ext; intros f _; apply Hentry; exact Hr. }
  unfold get_avg_std_stem_OP.
  rewrite (np_mean_axis0_residue residues (traj self) Hne Hrect).
  rewrite (np_mean_all_grand residues _ Hrect).
  set (ms := map (Spec.residue_mean (traj self) (length (traj self)))
                 (seq 0 residues)).
  set (m := Spec.residue_mean (traj self) (length (traj self)) 0).
  assert (Hlen : length ms = residues)
    by (unfold ms; rewrite length_map, length_seq; reflexivity).
  assert (Hms : forall i, (i < length ms)%nat -> nth i ms 0 = m).
  { intros i Hi; rewrite Hlen in Hi; unfold ms.
    rewrite nth_residue_means by exact Hi; apply Hmean; exact Hi. }
  assert (Hstd : np_std ms = 0).
  { apply (np_std_constant ms m); [|exact Hms].
    intros E; rewrite E in Hlen; simpl in Hlen; lia. }
  rewrite Hstd; split; [reflexivity|]; split; [unfold Rdiv; ring|].
  rewrite (grand_mean_of_means _ _ _ HF HR); fold ms.
  unfold np_mean at 1; rewrite np_sum_upto, Hlen.
  rewrite (sum_upto_ext _ _ (fun _ => m)) by (intros i Hi; apply Hms; lia).
  rewrite sum_upto_const.
  replace (INR residues * m / INR residues) with m
    by (field; apply not_0_INR; lia).
  unfold m, Spec.residue_mean, np_mean.
  rewrite length_map; f_equal.
  unfold np_sum; rewrite np_sum_from, Rplus_0_l.
  rewrite (sum_map_upto _ (traj self) []); reflexivity.
Qed.

Lemma identical_residues_no_spread_witness :
  let '(_, (avg, std, stem)) := get_avg_std_stem_OP op_uniform in
  std = 0 /\ stem = 0
  /\ avg = np_mean (map (fun row => nth 0 row 0) (traj op_uniform)).
Proof.
  apply (identical_residues_no_spread op_uniform 2).
  - lia.
  - discriminate.
  - repeat constructor; [exists 1|exists 3]; reflexivity.
Defined.

End ReductionMore.

(** ** The walk over the trajectory *)

Section WalkProperties.

Import Py OrderParameter Props Notions Walk Fixtures MoreFixtures.
Local Open Scope R_scope.

Lemma bind_inr {A B} (m : run A) (k : A -> run B) out b :
  Walk.bind m k = (out, inr b) ->
  exists out1 a out2,
    m = (out1, inr a) /\ k a = (out2, inr b) /\ out = (out1 ++ out2)%list.
Proof.
  destruct m as [out1 [e|a]]; simpl; [discriminate|].
  destruct (k a) as [out2 r] eqn:E; intros H; injection H as <- ->.
  exists out1, a, out2; auto.
Qed.

Lemma bind_inl {A B} (m : run A) (k : A -> run B) out e :
  m = (out, inl e) -> Walk.bind m k = (out, inl e).
Proof. intros ->; reflexivity. Qed.

Lemma extend_nil op : extend op [] = op.
Proof. destruct op; unfold extend; simpl; rewrite app_nil_r; reflexivity. Qed.

Lemma extend_extend op r1 r2 :
  extend (extend op r1) r2 = extend op (r1 ++ r2).
Proof. unfold extend; simpl; rewrite app_assoc; reflexivity. Qed.

(** The metric looks at the name of the definition only. *)
Lemma metric_extend op rows frame res :
  metric (extend op rows) frame res = metric op frame res.
Proof. reflexivity. Qed.

Lemma check_residues_inr op residues out :
  Walk.for_each (check_residue op) residues tt = (out, inr tt) ->
  Forall (fun res => length res = 2%nat) residues.
Proof.
  revert out; induction residues as [|res residues IH]; intros out H;
    [constructor|].
  simpl in H; apply bind_inr in H as (o1 & [] & o2 & H1 & H2 & _).
  unfold check_residue in H1.
  destruct (Nat.eqb_spec (length res) 2) as [E|_]; [|discriminate H1].
  constructor; [exact E|eapply IH; exact H2].
Qed.

Lemma check_residues_inl op residues :
  Exists (fun res => length res <> 2%nat) residues ->
  exists out n,
    Walk.for_each (check_residue op) residues tt
    = (out, inl (UserWarning_selection (atAname op) (atBname op) n))
    /\ n <> 2%nat.
Proof.
  induction residues as [|res residues IH]; intros H;
    [inversion H|].
  cbn [Walk.for_each]; unfold check_residue at 1.
  destruct (Nat.eqb_spec (length res) 2) as [E|E].
  - inversion H as [? ? Hbad|? ? Hrest]; subst; [contradiction|].
    destruct (IH Hrest) as (out & n & Heq & Hn).
    unfold Walk.bind, Walk.ret; rewrite Heq.
    exists out, n; split; [reflexivity|exact Hn].
  - exists [Residue res], (length res); split; [reflexivity|exact E].
Qed.

Lemma select_all_inr mol ordPars acc out ops :
  Walk.for_each (select mol) ordPars acc = (out, inr ops) ->
  ops = (acc ++ map (fun entry =>
                       (fst entry,
                        mkSelected (snd entry) (residues_of mol (snd entry))))
                    ordPars)%list
  /\ Forall (fun entry =>
               Forall (fun res => length res = 2%nat)
                      (residues_of mol (snd entry))) ordPars.
Proof.
  revert acc out; induction ordPars as [|[key op] ordPars IH];
    intros acc out H.
  - simpl in H; injection H as _ <-; rewrite app_nil_r; split; constructor.
  - simpl in H; apply bind_inr in H as (o1 & acc1 & o2 & H1 & H2 & _).
    apply bind_inr in H1 as (o3 & [] & o4 & Hc & Hr & _).
    injection Hr as _ <-.
    destruct (IH _ _ H2) as [-> Hall].
    split; [rewrite <- app_assoc; reflexivity|].
    constructor; [|exact Hall].
    apply check_residues_inr in Hc; exact Hc.
Qed.

Lemma row_inr op frame residues temp out row :
  Walk.for_each (add_metric op frame) residues temp = (out, inr row) ->
  exists vals,
    row = (temp ++ vals)%list /\ measured op residues frame vals.
Proof.
  revert temp out; induction residues as [|res residues IH];
    intros temp out H.
  - simpl in H; injection H as _ <-.
    exists []; rewrite app_nil_r; split; [reflexivity|constructor].
  - simpl in H; apply bind_inr in H as (o1 & temp1 & o2 & H1 & H2 & _).
    unfold add_metric in H1.
    apply bind_inr in H1 as (o3 & v & o4 & Hm & Hr & _).
    injection Hr as _ <-.
    destruct (IH _ _ H2) as (vals & -> & Hvals).
    exists (v :: vals); split; [rewrite <- app_assoc; reflexivity|].
    constructor; [exists o3; exact Hm|exact Hvals].
Qed.

Lemma walk_ops_inr frame ops done out result :
  Walk.for_each (walk_op frame) ops done = (out, inr result) ->
  exists news,
    result = (done ++ news)%list /\
    Forall2 (fun entry new =>
               fst new = fst entry /\
               exists row,
                 snd new = append_traj (snd entry) row /\
                 measured (definition (snd entry)) (selection (snd entry))
                          frame row)
            ops news.
Proof.
  revert done out; induction ops as [|[key s] ops IH]; intros done out H.
  - simpl in H; injection H as _ <-.
    exists []; rewrite app_nil_r; split; [reflexivity|constructor].
  - simpl in H; apply bind_inr in H as (o1 & done1 & o2 & H1 & H2 & _).
    apply bind_inr in H1 as (o3 & row & o4 & Hrow & Hr & _).
    injection Hr as _ <-.
    apply row_inr in Hrow as (vals & -> & Hvals).
    destruct (IH _ _ H2) as (news & -> & Hnews).
    exists ((key, append_traj s vals) :: news); split;
      [rewrite <- app_assoc; reflexivity|].
    constructor; [|exact Hnews].
    split; [reflexivity|exists vals; split; [reflexivity|exact Hvals]].
Qed.

Lemma grown_nil ops : Forall2 (grown []) ops ops.
Proof.
  induction ops as [|[key [op sel]] ops IH]; constructor; [|exact IH].
  split; [reflexivity|].
  exists []; simpl; rewrite extend_nil; split; [reflexivity|constructor].
Qed.

Lemma walk_frames_inr frames ops out result :
  Walk.for_each walk_frame frames ops = (out, inr result) ->
  Forall2 (grown frames) ops result.
Proof.
  revert ops out; induction frames as [|frame frames IH]; intros ops out H.
  - simpl in H; injection H as _ <-; apply grown_nil.
  - simpl in H; apply bind_inr in H as (o1 & ops1 & o2 & H1 & H2 & _).
    unfold walk_frame in H1.
    apply walk_ops_inr in H1 as (news & -> & Hnews); simpl in *.
    apply IH in H2; clear IH.
    revert result H2; induction Hnews as [|[k s] [k1 s1] ops news Hn _ IHn];
      intros result H2; inversion H2 as [|? [k2 s2] ? result' Hg Hrest];
      subst; constructor; [|apply IHn; exact Hrest].
    destruct Hn as [Hk (row & Hs1 & Hrow)].
    destruct Hg as [Hk2 (rows & Hs2 & Hrows)].
    simpl in *; subst k1 k2 s1; split; [reflexivity|].
    exists (row :: rows); split.
    + rewrite Hs2.
      change (definition (append_traj s row))
        with (extend (definition s) [row]).
      change (selection (append_traj s row)) with (selection s).
      rewrite extend_extend; reflexivity.
    + constructor; [exact Hrow|exact Hrows].
Qed.

Lemma Forall2_map_left {A B C} (R : B -> C -> Prop) (f : A -> B) l l' :
  Forall2 R (map f l) l' -> Forall2 (fun x y => R (f x) y) l l'.
Proof.
  revert l'; induction l as [|x l IH]; intros l' H; inversion H; subst;
    constructor; auto.
Qed.

Lemma Forall2_In_left {A B} (R : A -> B -> Prop) l l' x :
  Forall2 R l l' -> In x l -> exists y, In y l' /\ R x y.
Proof.
  induction 1 as [|a b l l' Hab _ IH]; intros Hin; [contradiction|].
  destruct Hin as [->|Hin].
  - exists b; split; [left; reflexivity|exact Hab].
  - destruct (IH Hin) as (y & Hy & Hxy); exists y; split;
      [right; exact Hy|exact Hxy].
Qed.

(** What a successful call leaves. *)
Lemma walk_result mol ordPars out result :
  read_trajs_calc_OPs mol ordPars = (out, inr result) ->
  Forall2 (walked mol) ordPars result
  /\ Forall (fun entry =>
               Forall (fun res => length res = 2%nat)
                      (residues_of mol (snd entry))) ordPars.
Proof.
  unfold read_trajs_calc_OPs; intros H.
  apply bind_inr in H as (o1 & ops & o2 & Hsel & Hwalk & _).
  apply select_all_inr in Hsel as [-> Hall]; simpl in Hwalk.
  split; [|exact Hall].
  apply walk_frames_inr, Forall2_map_left in Hwalk.
  eapply Forall2_impl; [|exact Hwalk].
  intros [key op] [key' s]; unfold grown, walked; simpl; auto.
Qed.

Lemma measured_length op residues frame row :
  measured op residues frame row -> length row = length residues.
Proof. intros H; symmetry; eapply Forall2_length; exact H. Qed.

(** X7.  When the walk returns, every definition keeps its key and
    its place, holds the selection it was given, made of residues of
    exactly two atoms, and its series has grown by one row per frame of
    the trajectory, each row holding one value per residue. *)
Theorem read_trajs_calc_OPs_series :
  forall (mol : Universe) (ordPars : list (string * OrderParameter.t))
         (out : list printed) (result : list (string * Selected)),
    read_trajs_calc_OPs mol ordPars = (out, inr result) ->
    Forall2
      (fun entry res =>
         fst res = fst entry /\
         selection (snd res) = residues_of mol (snd entry) /\
         Forall (fun r => length r = 2%nat) (residues_of mol (snd entry)) /\
         exists rows : list (list R),
           definition (snd res) = extend (snd entry) rows /\
           length rows = length (trajectory mol) /\
           rectangular (length (residues_of mol (snd entry))) rows)
      ordPars result.
Proof.
  intros mol ordPars out result H.
  apply walk_result in H as [Hwalk Hall].
  induction Hwalk as [|entry res ordPars result Hw _ IH]; constructor.
  - inversion Hall as [|? ? Hsel _]; subst.
    destruct Hw as [Hk (rows & Hres & Hrows)].
    split; [exact Hk|]; rewrite Hres; simpl.
    split; [reflexivity|]; split; [exact Hsel|].
    exists rows; split; [reflexivity|]; split.
    + symmetry; eapply Forall2_length; exact Hrows.
    + unfold rectangular; clear - Hrows.
      induction Hrows as [|frame row frames rows Hrow _ IHr]; constructor;
        [eapply measured_length; exact Hrow|exact IHr].
  - apply IH; inversion Hall; assumption.
Qed.

Lemma check_residues_error op residues out e :
  Walk.for_each (check_residue op) residues tt = (out, inl e) ->
  exists n, e = UserWarning_selection (atAname op) (atBname op) n
            /\ n <> 2%nat.
Proof.
  revert out; induction residues as [|res residues IH]; intros out H;
    [discriminate H|].
  cbn [Walk.for_each] in H; unfold check_residue at 1 in H.
  destruct (Nat.eqb_spec (length res) 2) as [E|E].
  - unfold Walk.bind, Walk.ret in H.
    destruct (Walk.for_each (check_residue op) residues tt) as [o r] eqn:Er.
    injection H as _ ->; eapply IH; reflexivity.
  - injection H as _ <-; exists (length res); split; [reflexivity|exact E].
Qed.

Lemma select_all_error mol ordPars acc :
  Exists (fun entry =>
            Exists (fun res => length res <> 2%nat)
                   (residues_of mol (snd entry))) ordPars ->
  exists out atA atB n,
    Walk.for_each (select mol) ordPars acc
    = (out, inl (UserWarning_selection atA atB n)) /\ n <> 2%nat.
Proof.
  revert acc; induction ordPars as [|[key op] ordPars IH]; intros acc H;
    [inversion H|].
  cbn [Walk.for_each]; unfold select at 1.
  fold (residues_of mol op).
  destruct (Walk.for_each (check_residue op) (residues_of mol op) tt)
    as [o [e|[]]] eqn:Ec.
  - destruct (check_residues_error _ _ _ _ Ec) as (n & -> & Hn).
    exists o, (atAname op), (atBname op), n; split; [reflexivity|exact Hn].
  - inversion H as [? ? Hbad|? ? Hrest]; subst.
    + simpl in Hbad.
      destruct (check_residues_inl op _ Hbad) as (o' & n & Hc & _).
      rewrite Hc in Ec; discriminate Ec.
    + destruct (IH (acc ++ [(key, mkSelected op (residues_of mol op))])%list
                   Hrest) as (o' & atA & atB & n & Heq & Hn).
      cbn [Walk.bind Walk.ret]; rewrite Heq.
      eexists _, atA, atB, n; split; [reflexivity|exact Hn].
Qed.

Lemma metric_mol_one :
  metric op_beta1 (mkFrame 45 [mkXyz 0 0 0; mkXyz 0 0 1]) [ref_C12; ref_H12A]
  = ([], inr 1).
Proof.
  unfold metric.
  change (vec_in (name op_beta1))
    with (inr (contains "vec" "beta1") : exc bool).
  replace (contains "vec" "beta1") with false by reflexivity.
  change (map (atom_in (mkFrame 45 [mkXyz 0 0 0; mkXyz 0 0 1]))
              [ref_C12; ref_H12A])
    with [mkAtom "C12" 1 (mkXyz 0 0 0); mkAtom "H12A" 1 (mkXyz 0 0 1)].
  rewrite calc_OP_unit_z; reflexivity.
Qed.

(** The walk over the one-residue, one-frame universe. *)
Lemma walk_mol_one :
  read_trajs_calc_OPs mol_one ordPars_beta1
  = ([], inr [("beta1"%string,
               mkSelected (extend op_beta1 [[1]]) [[ref_C12; ref_H12A]])]).
Proof.
  cbv beta iota zeta delta
    [read_trajs_calc_OPs ordPars_beta1 mol_one Walk.for_each Walk.bind
     Walk.ret select select_atoms trajectory check_residue length Nat.eqb
     walk_frame walk_op add_metric definition selection app resname
     atAname atBname].
  rewrite metric_mol_one.
  reflexivity.
Qed.

Lemma read_trajs_calc_OPs_series_witness :
  Forall2
    (fun entry res =>
       fst res = fst entry /\
       selection (snd res) = residues_of mol_one (snd entry) /\
       Forall (fun r => length r = 2%nat) (residues_of mol_one (snd entry)) /\
       exists rows : list (list R),
         definition (snd res) = extend (snd entry) rows /\
         length rows = length (trajectory mol_one) /\
         rectangular (length (residues_of mol_one (snd entry))) rows)
    ordPars_beta1
    [("beta1"%string,
      mkSelected (extend op_beta1 [[1]]) [[ref_C12; ref_H12A]])].
Proof.
  exact (read_trajs_calc_OPs_series mol_one ordPars_beta1 [] _ walk_mol_one).
Defined.

(** X8.  If the selection of some definition holds a residue with a
    number of atoms other than two, the call raises the selection
    [UserWarning], with that number, whatever the trajectory holds: no
    frame is measured. *)
Theorem read_trajs_calc_OPs_selection_error :
  forall (mol : Universe) (ordPars : list (string * OrderParameter.t)),
    Exists (fun entry =>
              Exists (fun res => length res <> 2%nat)
                     (residues_of mol (snd entry))) ordPars ->
    exists (out : list printed) (atA atB : value) (n : nat),
      read_trajs_calc_OPs mol ordPars
      = (out, inl (UserWarning_selection atA atB n)) /\ n <> 2%nat.
Proof.
  intros mol ordPars H.
  destruct (select_all_error mol ordPars [] H)
    as (out & atA & atB & n & Heq & Hn).
  exists out, atA, atB, n; split; [|exact Hn].
  unfold read_trajs_calc_OPs; rewrite Heq; reflexivity.
Qed.

Lemma read_trajs_calc_OPs_selection_error_witness :
  exists (out : list printed) (atA atB : value) (n : nat),
    read_trajs_calc_OPs mol_bad ordPars_beta1
    = (out, inl (UserWarning_selection atA atB n)) /\ n <> 2%nat.
Proof.
  apply read_trajs_calc_OPs_selection_error.
  apply Exists_cons_hd, Exists_cons_hd; simpl; discriminate.
Defined.

(** X9.  The bond check is a hard stop: when the walk returns, every
    residue of every definition measured by [calc_OP] (its name is a
    string without "vec") has its two atoms no further apart than the
    limit in every frame. *)
Theorem read_trajs_calc_OPs_bonds_checked :
  forall (mol : Universe) (ordPars : list (string * OrderParameter.t))
         (out : list printed) (result : list (string * Selected))
         (key : string) (op : OrderParameter.t) (nm : string)
         (frame : Frame) (res : list AtomRef),
    read_trajs_calc_OPs mol ordPars = (out, inr result) ->
    In (key, op) ordPars ->
    name op = VStr nm -> contains "vec" nm = false ->
    In frame (trajectory mol) ->
    In res (residues_of mol op) ->
    exists a0 a1 : AtomRef,
      res = [a0; a1] /\
      square_sum (bond (atom_in frame a0) (atom_in frame a1)) <= 9 / 4.
Proof.
  intros mol ordPars out result key op nm frame res H Hin Hname Hvec Hf Hr.
  apply walk_result in H as [Hwalk Hall].
  rewrite Forall_forall in Hall; specialize (Hall _ Hin); simpl in Hall.
  rewrite Forall_forall in Hall; specialize (Hall _ Hr).
  destruct res as [|a0 [|a1 [|a2 res]]]; try discriminate Hall.
  exists a0, a1; split; [reflexivity|].
  destruct (Forall2_In_left _ _ _ _ Hwalk Hin) as (r & _ & _ & rows & _ & Hrows).
  simpl in Hrows.
  destruct (Forall2_In_left _ _ _ _ Hrows Hf) as (row & _ & Hrow).
  destruct (Forall2_In_left _ _ _ _ Hrow Hr) as (v & _ & o & Hm).
  unfold metric in Hm; rewrite Hname in Hm; simpl in Hm; rewrite Hvec in Hm.
  destruct (Rle_dec (square_sum (bond (atom_in frame a0) (atom_in frame a1)))
                    (9 / 4)) as [Hle|Hgt]; [exact Hle|].
  rewrite calc_OP_long in Hm by lra; discriminate Hm.
Qed.

Lemma Forall2_Forall_right {A B} (R : A -> B -> Prop) (P : B -> Prop) l l' :
  Forall2 R l l' ->
  (forall x y, In x l -> R x y -> P y) ->
  Forall P l'.
Proof.
  induction 1 as [|a b l l' Hab _ IH]; intros HP; constructor.
  - apply (HP a b); [left; reflexivity|exact Hab].
  - apply IH; intros x y Hx; apply HP; right; exact Hx.
Qed.

Lemma metric_in_range op nm frame a0 a1 out v :
  name op = VStr nm ->
  0 < square_sum (bond (atom_in frame a0) (atom_in frame a1)) ->
  metric op frame [a0; a1] = (out, inr v) ->
  if contains "vec" nm then 0 <= v <= 180 else - (1 / 2) <= v <= 1.
Proof.
  intros Hname Hpos H; unfold metric in H; rewrite Hname in H.
  cbn [vec_in Py.ret] in H.
  destruct (contains "vec" nm).
  - cbn [map] in H.
    destruct (calc_angle op [atom_in frame a0; atom_in frame a1]
                         (dimensions_z frame)) as [o r] eqn:E.
    destruct r as [e|angle]; [discriminate H|].
    injection H as _ <-.
    unfold calc_angle in E; rewrite getitem_1, getitem_0 in E.
    destruct (to_angle_range
                (z (minus (position (atom_in frame a1))
                          (position (atom_in frame a0)))
                 / sqrt (square_sum
                           (minus (position (atom_in frame a1))
                                  (position (atom_in frame a0))))
                 * math_copysign 1
                     (z (position (atom_in frame a0))
                      - dimensions_z frame * (5 / 10))))
      as (a & Ha & Hrange).
    rewrite E in Ha; simpl in Ha; injection Ha as ->; exact Hrange.
  - cbn [map] in H.
    destruct (calc_OP op [atom_in frame a0; atom_in frame a1])
      as [e|S] eqn:E; [discriminate H|].
    injection H as _ <-.
    apply (calc_OP_bounds op _ _ S Hpos E).
Qed.

(** X10.  When the walk returns and the two atoms of every residue
    are distinct in every frame, every value it has stored for a
    definition named by a string is an angle between 0 and 180 degrees
    if the name contains "vec", and an order parameter between -1/2
    and 1 otherwise. *)
Theorem read_trajs_calc_OPs_values :
  forall (mol : Universe) (ordPars : list (string * OrderParameter.t))
         (out : list printed) (result : list (string * Selected)),
    read_trajs_calc_OPs mol ordPars = (out, inr result) ->
    (forall key op frame a0 a1,
        In (key, op) ordPars -> In frame (trajectory mol) ->
        In [a0; a1] (residues_of mol op) ->
        0 < square_sum (bond (atom_in frame a0) (atom_in frame a1))) ->
    Forall2
      (fun entry res =>
         forall nm : string,
           name (snd entry) = VStr nm ->
           exists rows : list (list R),
             definition (snd res) = extend (snd entry) rows /\
             Forall (Forall (fun v =>
                               if contains "vec" nm then 0 <= v <= 180
                               else - (1 / 2) <= v <= 1)) rows)
      ordPars result.
Proof.
  intros mol ordPars out result H Hdistinct.
  apply walk_result in H as [Hwalk Hall].
  assert (G : forall entry res,
             In entry ordPars -> walked mol entry res ->
             forall nm, name (snd entry) = VStr nm ->
             exists rows,
               definition (snd res) = extend (snd entry) rows /\
               Forall (Forall (fun v =>
                                 if contains "vec" nm then 0 <= v <= 180
                                 else - (1 / 2) <= v <= 1)) rows).
  { intros [key op] res Hin [_ (rows & Hres & Hrows)] nm Hname.
    simpl in *.
    exists rows; split; [rewrite Hres; reflexivity|].
    rewrite Forall_forall in Hall; specialize (Hall _ Hin); simpl in Hall.
    apply (Forall2_Forall_right _ _ _ _ Hrows); intros frame row Hf Hrow.
    apply (Forall2_Forall_right _ _ _ _ Hrow); intros r v Hr [o Hm].
    rewrite Forall_forall in Hall; pose proof (Hall _ Hr) as Hlen.
    destruct r as [|a0 [|a1 [|a2 r]]]; try discriminate Hlen.
    apply (metric_in_range op nm frame a0 a1 o v Hname); [|exact Hm].
    apply (Hdistinct key op frame a0 a1 Hin Hf Hr). }
  clear Hall Hdistinct.
  induction Hwalk as [|entry res ordPars result Hw _ IH]; constructor.
  - apply G; [left; reflexivity|exact Hw].
  - apply IH; intros e r He; apply G; right; exact He.
Qed.

Lemma read_trajs_calc_OPs_values_witness :
  Forall2
    (fun entry res =>
       forall nm : string,
         name (snd entry) = VStr nm ->
         exists rows : list (list R),
           definition (snd res) = extend (snd entry) rows /\
           Forall (Forall (fun v =>
                             if contains "vec" nm then 0 <= v <= 180
                             else - (1 / 2) <= v <= 1)) rows)
    ordPars_beta1
    [("beta1"%string,
      mkSelected (extend op_beta1 [[1]]) [[ref_C12; ref_H12A]])].
Proof.
  apply (read_trajs_calc_OPs_values mol_one ordPars_beta1 [] _ walk_mol_one).
  intros key op frame a0 a1 _ Hf Hr.
  destruct Hf as [<-|[]]; destruct Hr as [E|[]].
  injection E as <- <-.
  unfold square_sum, bond, minus; simpl; lra.
Defined.

Lemma read_trajs_calc_OPs_bonds_checked_witness :
  exists a0 a1 : AtomRef,
    [ref_C12; ref_H12A] = [a0; a1] /\
    square_sum (bond (atom_in (mkFrame 45 [mkXyz 0 0 0; mkXyz 0 0 1]) a0)
                     (atom_in (mkFrame 45 [mkXyz 0 0 0; mkXyz 0 0 1]) a1))
    <= 9 / 4.
Proof.
  apply (read_trajs_calc_OPs_bonds_checked mol_one ordPars_beta1 [] _
           "beta1"%string op_beta1 "beta1"%string _ _ walk_mol_one).
  - left; reflexivity.
  - reflexivity.
  - reflexivity.
  - left; reflexivity.
  - left; reflexivity.
Defined.

End WalkProperties.

(** ** More on the parser of definitions *)

Section ParserMore.

Import Py OrderParameter Parser Props Notions Fixtures.
Local Open Scope string_scope.

Lemma parse_comment ordPars line :
  Str.startswith line "#" = true -> parse_line ordPars line = inr ordPars.
Proof. intros H; unfold parse_line; rewrite H; reflexivity. Qed.

(** X11.  Lines starting with '#' play no part: parsing a file gives
    what parsing the file without these lines gives, be it a
    dictionary or an exception. *)
Theorem parse_op_input_skips_comments :
  forall def_file : list string,
    parse_op_input def_file
    = parse_op_input
        (filter (fun line => negb (Str.startswith line "#")) def_file).
Proof.
  intros def_file; unfold parse_op_input; generalize (@nil (string * t)).
  induction def_file as [|line def_file IH]; intros acc; [reflexivity|].
  cbn [filter]; destruct (Str.startswith line "#") eqn:E; cbn [negb].
  - cbn [for_each]; rewrite (parse_comment acc line E); cbn [bind].
    apply IH.
  - cbn [for_each]; destruct (parse_line acc line); cbn [bind];
      [reflexivity|apply IH].
Qed.

(** X12.  What a line that is not a comment does, by its number of
    tokens: fewer than 4 make the call of the constructor a
    [TypeError]; 4, 6 or 7 store the definition built from the tokens
    under the first token; 5, or 8 and more, raise the [UserWarning]
    on the number of optional arguments. *)
Theorem parse_line_by_token_count :
  forall (ordPars : OrderedDict) (line : string),
    Str.startswith line "#" = false ->
    let items := Str.split line in
    ((length items < 4)%nat -> parse_line ordPars line = inl TypeError) /\
    (In (length items) [4; 6; 7]%nat ->
     exists key op,
       hd_error items = Some key /\
       OrderParameter.call (map VStr items) = inr op /\
       name op = VStr key /\
       parse_line ordPars line = inr (setitem ordPars key op)) /\
    ((length items = 5 \/ 8 <= length items)%nat ->
     parse_line ordPars line
     = inl (UserWarning_arg_count (length items - 4)
                                  (map VStr (skipn 4 items)))).
Proof.
  intros ordPars line Hc items.
  unfold parse_line; rewrite Hc; cbn [negb]; fold items.
  destruct items as [|i0 [|i1 [|i2 [|i3 rest]]]]; cbn [length map call].
  1-4: repeat split; try reflexivity;
       try (intros H; exfalso; simpl in H; lia);
       try (intros H; exfalso; simpl in H; intuition discriminate).
  unfold OrderParameter.init; rewrite check_fields_pass; cbn [bind].
  destruct rest as [|r0 [|r1 [|r2 [|r3 rest]]]].
  - split; [simpl; lia|]; split; [|simpl; lia].
    intros _; eexists _, _; repeat split; reflexivity.
  - split; [simpl; lia|]; split; [simpl; intuition discriminate|].
    intros _; reflexivity.
  - split; [simpl; lia|]; split; [|simpl; lia].
    intros _; eexists _, _; repeat split; reflexivity.
  - split; [simpl; lia|]; split; [|simpl; lia].
    intros _; eexists _, _; repeat split; reflexivity.
  - split; [simpl; lia|]; split; [simpl; intuition discriminate|].
    intros _; cbn [map length skipn Nat.sub].
    rewrite length_map; reflexivity.
Qed.

Lemma parse_line_by_token_count_witness :
  parse_line [] "beta1 POPC C12" = inl TypeError.
Proof.
  apply (parse_line_by_token_count [] "beta1 POPC C12" eq_refl).
  simpl; lia.
Defined.

Lemma append_nil_r (s : string) : s ++ "" = s.
Proof. induction s as [|c s IH]; simpl; [reflexivity|rewrite IH; reflexivity]. Qed.

Lemma append_snoc (s : string) c w : (s ++ String c "") ++ w = s ++ String c w.
Proof.
  induction s as [|c' s IH]; simpl; [reflexivity|rewrite IH; reflexivity].
Qed.

Lemma append_nonempty (s w : string) : w <> "" -> s ++ w <> "".
Proof.
  intros Hw; destruct s; simpl; [exact Hw|discriminate].
Qed.

(** A run of non-blank characters is read into the current token. *)
Lemma split_from_word cur w rest :
  forallb (fun c => negb (Str.isspace c)) (list_ascii_of_string w) = true ->
  Str.split_from cur (w ++ rest) = Str.split_from (cur ++ w) rest.
Proof.
  revert cur; induction w as [|c w IH]; intros cur H.
  - simpl; rewrite append_nil_r; reflexivity.
  - cbn [list_ascii_of_string forallb] in H.
    apply andb_true_iff in H as [Hc Hw].
    apply negb_true_iff in Hc.
    cbn [append Str.split_from]; rewrite Hc, (IH _ Hw), append_snoc.
    reflexivity.
Qed.

(** A blank closes the current token. *)
Lemma split_from_blank cur c rest :
  Str.isspace c = true -> cur <> "" ->
  Str.split_from cur (String c rest) = cur :: Str.split_from "" rest.
Proof.
  intros Hc Hcur; cbn [Str.split_from]; rewrite Hc.
  destruct cur; [contradiction|reflexivity].
Qed.

Lemma split_word_then cur c rest w :
  word w -> Str.isspace c = true ->
  Str.split_from cur (w ++ String c rest) = (cur ++ w) :: Str.split_from "" rest.
Proof.
  intros [Hne Hw] Hc.
  rewrite (split_from_word _ _ _ Hw).
  apply split_from_blank; [exact Hc|apply append_nonempty; exact Hne].
Qed.

Lemma split_four n r a b :
  word n -> word r -> word a -> word b ->
  Str.split (n ++ " " ++ r ++ " " ++ a ++ " " ++ b ++ newline) = [n; r; a; b].
Proof.
  intros Hn Hr Ha Hb; unfold Str.split, newline.
  change (" " ++ r ++ " " ++ a ++ " " ++ b ++ String (ascii_of_nat 10) "")
    with (String " " (r ++ " " ++ a ++ " " ++ b ++ String (ascii_of_nat 10) "")).
  rewrite (split_word_then "" " "%char _ n Hn eq_refl).
  change (" " ++ a ++ " " ++ b ++ String (ascii_of_nat 10) "")
    with (String " " (a ++ " " ++ b ++ String (ascii_of_nat 10) "")).
  rewrite (split_word_then "" " "%char _ r Hr eq_refl).
  change (" " ++ b ++ String (ascii_of_nat 10) "")
    with (String " " (b ++ String (ascii_of_nat 10) "")).
  rewrite (split_word_then "" " "%char _ a Ha eq_refl).
  rewrite (split_word_then "" (ascii_of_nat 10) _ b Hb eq_refl).
  reflexivity.
Qed.

Lemma prefix_empty s : String.prefix "" s = true.
Proof. destruct s; reflexivity. Qed.

Lemma startswith_append n rest :
  n <> "" ->
  Str.startswith (n ++ rest) "#" = Str.startswith n "#".
Proof.
  intros Hn; destruct n as [|c n]; [contradiction|].
  unfold Str.startswith; cbn [append String.prefix].
  destruct (Ascii.ascii_dec "#" c); [|reflexivity].
  rewrite !prefix_empty; reflexivity.
Qed.

(** X13.  A line made of four words separated by single spaces and
    ended by a newline, whose first word does not start with '#',
    parses to exactly one definition, stored under the first word and
    holding the four words as name, residue name and atom names, with
    no statistics and an empty series. *)
Theorem parse_four_words :
  forall n r a b : string,
    word n -> word r -> word a -> word b ->
    Str.startswith n "#" = false ->
    parse_op_input [n ++ " " ++ r ++ " " ++ a ++ " " ++ b ++ newline]
    = inr [(n, mkOP (VStr n) (VStr r) (VStr a) (VStr b)
                    VNone None VNone VNone [])].
Proof.
  intros n r a b Hn Hr Ha Hb Hc.
  unfold parse_op_input; cbn [for_each]; unfold parse_line.
  rewrite (startswith_append n _ (proj1 Hn)), Hc; cbn [negb].
  rewrite (split_four n r a b Hn Hr Ha Hb).
  reflexivity.
Qed.

Lemma parse_four_words_witness :
  parse_op_input ["beta1" ++ " " ++ "POPC" ++ " " ++ "C12" ++ " " ++ "H12A"
                  ++ newline]
  = inr [("beta1", op_beta1)].
Proof.
  apply (parse_four_words "beta1" "POPC" "C12" "H12A");
    try (split; [discriminate|reflexivity]); reflexivity.
Defined.

Lemma setitem_keys_in d k v k' :
  In k' (keys (setitem d k v)) <-> k' = k \/ In k' (keys d).
Proof.
  unfold keys; induction d as [|[k0 v0] d IH]; simpl.
  - intuition.
  - destruct (String.eqb_spec k0 k) as [->|Hne]; simpl; [intuition|].
    rewrite IH; intuition.
Qed.

Lemma setitem_keys_NoDup d k v :
  NoDup (keys (setitem d k v)) <-> NoDup (keys d).
Proof.
  unfold keys; induction d as [|[k0 v0] d IH]; simpl.
  - split; intros _; constructor; [intros []|constructor].
  - destruct (String.eqb_spec k0 k) as [->|Hne]; simpl; [reflexivity|].
    split; intros H; inversion H as [|? ? Hnot Hnd]; subst; constructor.
    + intros Hin; apply Hnot.
      apply (setitem_keys_in d k v k0); right; exact Hin.
    + apply IH; exact Hnd.
    + intros Hin; apply (setitem_keys_in d k v k0) in Hin.
      destruct Hin as [E|Hin]; [congruence|exact (Hnot Hin)].
    + apply IH; exact Hnd.
Qed.

Lemma lookup_setitem d k v : lookup (setitem d k v) k = Some v.
Proof.
  induction d as [|[k0 v0] d IH]; simpl.
  - rewrite String.eqb_refl; reflexivity.
  - destruct (String.eqb_spec k0 k) as [->|Hne]; simpl.
    + rewrite String.eqb_refl; reflexivity.
    + destruct (String.eqb_spec k0 k); [contradiction|exact IH].
Qed.

(** What a successful step of the loop did. *)
Lemma parse_line_inr ordPars line d :
  parse_line ordPars line = inr d ->
  (Str.startswith line "#" = true /\ d = ordPars) \/
  (Str.startswith line "#" = false /\
   exists key op,
     defined_name line = Some key /\
     OrderParameter.call (map VStr (Str.split line)) = inr op /\
     d = setitem ordPars key op).
Proof.
  unfold parse_line, defined_name.
  destruct (Str.startswith line "#"); cbn [negb].
  - intros H; injection H as <-; left; auto.
  - destruct (OrderParameter.call (map VStr (Str.split line))) as [e|op];
      cbn [bind]; [discriminate|].
    destruct (Str.split line) as [|key items]; [discriminate|].
    intros H; injection H as <-; right; split; [reflexivity|].
    exists key, op; auto.
Qed.

Lemma parse_keys lines acc d :
  for_each parse_line lines acc = inr d ->
  (NoDup (keys acc) -> NoDup (keys d)) /\
  forall k, In k (keys d) <->
            In k (keys acc) \/
            exists line, In line lines /\ Str.startswith line "#" = false
                         /\ defined_name line = Some k.
Proof.
  revert acc; induction lines as [|line lines IH]; intros acc H.
  - injection H as <-; split; [auto|].
    intros k; split; [auto|intros [Hk|(l & [] & _)]; exact Hk].
  - cbn [for_each] in H.
    destruct (parse_line acc line) as [e|acc1] eqn:E; [discriminate H|].
    cbn [bind] in H; destruct (IH _ H) as [Hnd Hin]; clear IH.
    apply parse_line_inr in E
      as [[Hc ->]|(Hc & key & op & Hkey & _ & ->)].
    + split; [exact Hnd|].
      intros k; rewrite Hin; split.
      * intros [Hk|(l & Hl & Hlc & Hlk)]; [left; exact Hk|].
        right; exists l; split; [right; exact Hl|auto].
      * intros [Hk|(l & [<-|Hl] & Hlc & Hlk)]; [left; exact Hk| |].
        -- rewrite Hc in Hlc; discriminate Hlc.
        -- right; exists l; auto.
    + split; [intros Ha; apply Hnd, setitem_keys_NoDup; exact Ha|].
      intros k; rewrite Hin, setitem_keys_in; split.
      * intros [[->|Hk]|(l & Hl & Hlc & Hlk)].
        -- right; exists line; split; [left; reflexivity|auto].
        -- left; exact Hk.
        -- right; exists l; split; [right; exact Hl|auto].
      * intros [Hk|(l & [<-|Hl] & Hlc & Hlk)].
        -- left; right; exact Hk.
        -- left; left; congruence.
        -- right; exists l; auto.
Qed.

(** X14.  In the dictionary returned for a file no name appears
    twice, and the names are exactly the first tokens of the lines that
    are not comments. *)
Theorem parse_op_input_keys :
  forall (def_file : list string) (ordPars : OrderedDict),
    parse_op_input def_file = inr ordPars ->
    NoDup (map fst ordPars) /\
    forall k : string,
      In k (map fst ordPars) <->
      exists line, In line def_file /\ Str.startswith line "#" = false
                   /\ defined_name line = Some k.
Proof.
  intros def_file ordPars H.
  destruct (parse_keys def_file [] ordPars H) as [Hnd Hin].
  split; [apply Hnd; constructor|].
  intros k; rewrite (Hin k); split; [intros [[]|Hk]; exact Hk|auto].
Qed.

Lemma parse_op_input_keys_witness :
  NoDup (map fst [("beta1", op_beta1)]) /\
  forall k : string,
    In k (map fst [("beta1", op_beta1)]) <->
    exists line, In line ["beta1 POPC C12 H12A"]
                 /\ Str.startswith line "#" = false
                 /\ defined_name line = Some k.
Proof.
  exact (parse_op_input_keys ["beta1 POPC C12 H12A"] _ eq_refl).
Defined.

(** X15.  The last definition of a name is the one that is kept: when
    a file ending with a line that is not a comment parses, looking up
    the first token of that line gives the definition built from that
    line, whatever the lines before defined under that name. *)
Theorem parse_op_input_last_wins :
  forall (before : list string) (line : string) (ordPars : OrderedDict),
    parse_op_input (before ++ [line])%list = inr ordPars ->
    Str.startswith line "#" = false ->
    exists key op,
      defined_name line = Some key /\
      OrderParameter.call (map VStr (Str.split line)) = inr op /\
      lookup ordPars key = Some op.
Proof.
  intros before line ordPars H Hc.
  unfold parse_op_input in H; rewrite for_each_app in H.
  destruct (for_each parse_line before []) as [e|d]; [discriminate H|].
  cbn [bind for_each] in H.
  destruct (parse_line d line) as [e|d'] eqn:E; [discriminate H|].
  cbn [bind] in H; injection H as <-.
  apply parse_line_inr in E as [[Hc' _]|(_ & key & op & Hk & Hop & ->)];
    [rewrite Hc in Hc'; discriminate Hc'|].
  exists key, op; split; [exact Hk|]; split; [exact Hop|].
  apply lookup_setitem.
Qed.

Lemma parse_op_input_last_wins_witness :
  exists key op,
    defined_name "beta1 POPC C11 H11A" = Some key /\
    OrderParameter.call (map VStr (Str.split "beta1 POPC C11 H11A")) = inr op /\
    lookup [("beta1", mkOP (VStr "beta1") (VStr "POPC") (VStr "C11")
                           (VStr "H11A") VNone None VNone VNone [])] key
    = Some op.
Proof.
  exact (parse_op_input_last_wins ["beta1 POPC C12 H12A"]
           "beta1 POPC C11 H11A" _ eq_refl eq_refl).
Defined.

End ParserMore.

(** ** More on the accumulation of the density grid *)

Section AccumulateMore.

Import Py Density Dmap Props Notions Fixtures.
Local Open Scope Qc_scope.

(** X16.  The grid [do2dgrid] builds always has the [n1] x [n2] shape
    fixed when the [Density] object was made, whatever the frames
    hold. *)
Theorem accumulate_shape :
  forall (self : Density.t) (trajectory : Trajectory) (l_grids : list Grid)
         (grids : list Grid),
    do2dgrid self trajectory l_grids = inr grids ->
    exists g : Grid,
      grids = (l_grids ++ [g])%list /\
      shaped (Z.to_nat (n1 self)) (Z.to_nat (n2 self)) g.
Proof.
  intros self trajectory l_grids grids H.
  unfold do2dgrid in H.
  destruct (accumulate self trajectory) as [e|g] eqn:E; [discriminate H|].
  cbn [bind ret] in H; injection H as <-.
  exists g; split; [reflexivity|].
  unfold accumulate in E.
  destruct (zeros (n1 self) (n2 self)) as [e|z] eqn:Ez; [discriminate E|].
  cbn [bind] in E.
  apply zeros_shaped in Ez as [Hz _].
  exact (proj2 (frames_plus self _ _ trajectory z z Hz Hz) g E).
Qed.

Lemma accumulate_shape_witness :
  exists g : Grid,
    [g] = ([] ++ [g])%list /\
    shaped (Z.to_nat (n1 density_2x3)) (Z.to_nat (n2 density_2x3)) g.
Proof.
  destruct (do2dgrid density_2x3 [frame_2x3] []) as [e|grids] eqn:E;
    [vm_compute in E; discriminate E|].
  destruct (accumulate_shape density_2x3 [frame_2x3] [] grids E)
    as (g & -> & Hg).
  exists g; split; [reflexivity|exact Hg].
Defined.

Lemma row_total_set_nth k y row :
  (k < length row)%nat ->
  row_total (set_nth k y row) = row_total row - nth k row 0 + y.
Proof.
  revert k; induction row as [|x row IH]; intros [|k] Hk; simpl in *;
    try lia.
  - ring.
  - rewrite IH by lia; ring.
Qed.

Lemma grid_total_set_nth k row' g :
  (k < length g)%nat ->
  grid_total (set_nth k row' g)
  = grid_total g - row_total (nth k g []) + row_total row'.
Proof.
  revert k; induction g as [|row g IH]; intros [|k] Hk; simpl in *;
    try lia.
  - ring.
  - rewrite IH by lia; ring.
Qed.

(** An increment adds its weight to the total. *)
Lemma add_cell_total g i j v g' :
  add_cell g i j v = inr g' -> grid_total g' = grid_total g + v.
Proof.
  unfold add_cell.
  destruct (index (length g) i) as [e|r] eqn:Ei; cbn [bind];
    [discriminate|].
  destruct (index (length (nth r g [])) j) as [e|c] eqn:Ej; cbn [bind];
    [discriminate|].
  intros H; injection H as <-.
  apply index_lt in Ei, Ej.
  rewrite grid_total_set_nth, row_total_set_nth by assumption; ring.
Qed.

Lemma of_Z_succ (n : nat) :
  Num.of_Z (Z.of_nat (S n)) = Num.of_Z (Z.of_nat n) + 1.
Proof.
  apply Qc_is_canon; unfold Num.of_Z, Qcplus, Q2Qc; cbn [this].
  rewrite !Qred_correct, Nat2Z.inj_succ, <- Z.add_1_r, inject_Z_plus.
  reflexivity.
Qed.

Lemma atoms_total self ts v atoms g g' :
  for_each (bin_atom self ts v) atoms g = inr g' ->
  grid_total g' = grid_total g + Num.of_Z (Z.of_nat (length atoms)) * v.
Proof.
  revert g; induction atoms as [|atom atoms IH]; intros g H.
  - injection H as <-; change (Num.of_Z (Z.of_nat (length (@nil Atom))))
      with (Q2Qc 0); ring.
  - cbn [for_each] in H.
    destruct (bin_atom self ts v g atom) as [e|g1] eqn:E; [discriminate H|].
    cbn [bind] in H; rewrite (IH _ H).
    unfold bin_atom in E; destruct (fractions ts atom) as [m1 m2].
    rewrite (add_cell_total _ _ _ _ _ E).
    change (length (atom :: atoms)) with (S (length atoms)).
    rewrite of_Z_succ; ring.
Qed.

Lemma frames_total self trajectory g g' :
  for_each (bin_frame self) trajectory g = inr g' ->
  grid_total g'
  = grid_total g
    + fold_right (fun ts acc =>
                    Num.of_Z (Z.of_nat (length (selection self)))
                    * invcellvol self ts + acc) 0 trajectory.
Proof.
  revert g; induction trajectory as [|ts trajectory IH]; intros g H.
  - injection H as <-; simpl; ring.
  - cbn [for_each] in H.
    destruct (bin_frame self g ts) as [e|g1] eqn:E; [discriminate H|].
    cbn [bind] in H; rewrite (IH _ H).
    unfold bin_frame in E; rewrite (atoms_total _ _ _ _ _ _ E).
    cbn [fold_right]; unfold invcellvol; ring.
Qed.

Lemma grid_total_zeros r c : grid_total (repeat (repeat 0 c) r) = 0.
Proof.
  assert (Hrow : row_total (repeat 0 c) = 0)
    by (induction c as [|c IH]; simpl; [reflexivity|rewrite IH; ring]).
  induction r as [|r IH]; simpl; [reflexivity|].
  rewrite Hrow, IH; ring.
Qed.

(** X17.  Every selected atom of every frame is counted exactly once:
    the cells of the grid [do2dgrid] builds add up to the number of
    atoms of the selection times the inverse cell volume of the frame,
    summed over the frames. *)
Theorem accumulate_total :
  forall (self : Density.t) (trajectory : Trajectory) (g : Grid),
    do2dgrid self trajectory [] = inr [g] ->
    grid_total g
    = fold_right (fun ts acc =>
                    Num.of_Z (Z.of_nat (length (selection self)))
                    * invcellvol self ts + acc) 0 trajectory.
Proof.
  intros self trajectory g H.
  apply (do2dgrid_accumulate self trajectory [] g) in H.
  unfold accumulate in H.
  destruct (zeros (n1 self) (n2 self)) as [e|z] eqn:Ez; [discriminate H|].
  cbn [bind] in H.
  apply zeros_shaped in Ez as [_ ->].
  rewrite (frames_total _ _ _ _ H), grid_total_zeros; ring.
Qed.

Lemma accumulate_total_witness :
  exists g : Grid,
    do2dgrid density_2x3 [frame_2x3; frame_2x3] [] = inr [g] /\
    grid_total g
    = fold_right (fun ts acc =>
                    Num.of_Z (Z.of_nat (length (selection density_2x3)))
                    * invcellvol density_2x3 ts + acc) 0
                 [frame_2x3; frame_2x3].
Proof.
  destruct (accumulate density_2x3 [frame_2x3; frame_2x3]) as [e|g] eqn:E;
    [vm_compute in E; discriminate E|].
  apply (do2dgrid_accumulate density_2x3 _ [] g) in E.
  exists g; split; [exact E|].
  apply accumulate_total; exact E.
Defined.

End AccumulateMore.

(** ** Atoms inside the box *)

Section InsideBox.

Import Py Density Dmap Props Notions Fixtures.
Local Open Scope Qc_scope.

Lemma this_mult (a b : Qc) : (this (a * b) == this a * this b)%Q.
Proof. unfold Qcmult, Q2Qc; cbn [this]; apply Qred_correct. Qed.

Lemma this_div (a b : Qc) : (this (a / b) == this a / this b)%Q.
Proof.
  unfold Qcdiv, Qcmult, Qcinv, Q2Qc; cbn [this].
  rewrite !Qred_correct; reflexivity.
Qed.

Lemma this_of_Z (z : Z) : (this (Num.of_Z z) == inject_Z z)%Q.
Proof. unfold Num.of_Z, Q2Qc; cbn [this]; apply Qred_correct. Qed.

Lemma tenth_neq_0 : Num.tenth <> 0.
Proof. intros H; apply (f_equal this) in H; vm_compute in H; discriminate H. Qed.

(** The fraction of an in-box coordinate lies in [0, 1). *)
Lemma fraction_in_unit (p len : Qc) :
  0 <= p -> p < len ->
  let m := (p * Num.tenth) / (len * Num.tenth) in
  (0 <= this m /\ this m < 1)%Q.
Proof.
  intros H0 H1 m.
  assert (Hlen : (0 < this len)%Q)
    by (eapply Qle_lt_trans; [exact H0|exact H1]).
  assert (Em : (this m == this p / this len)%Q).
  { unfold m; rewrite this_div, !this_mult.
    field; split;
      first [ solve [intros E; rewrite E in Hlen; exact (Qlt_irrefl 0 Hlen)]
            | vm_compute; discriminate ]. }
  rewrite Em; split.
  - apply Qle_shift_div_l; [exact Hlen|].
    rewrite Qmult_0_l; exact H0.
  - apply Qlt_shift_div_r; [exact Hlen|].
    rewrite Qmult_1_l; exact H1.
Qed.

Lemma no_wrap (m : Qc) :
  (0 <= this m /\ this m < 1)%Q ->
  Num.leb 1 m = false /\ Num.ltb m 0 = false.
Proof.
  intros [H0 H1]; unfold Num.leb, Num.ltb; split.
  - destruct (Qle_bool _ _) eqn:E; [|reflexivity].
    apply Qle_bool_iff in E.
    exfalso; apply (Qlt_irrefl 1%Q).
    apply (Qle_lt_trans _ (this m)); [exact E|exact H1].
  - apply negb_false_iff, Qle_bool_iff; exact H0.
Qed.

(** The cell index of a fraction in [0, 1) is a valid index. *)
Lemma int_in_range (m : Qc) (n : Z) :
  (0 <= this m /\ this m < 1)%Q -> (0 < n)%Z ->
  (0 <= Num.int (m * Num.of_Z n) < n)%Z.
Proof.
  intros [H0 H1] Hn.
  assert (Ex : (this (m * Num.of_Z n) == this m * inject_Z n)%Q)
    by (rewrite this_mult, this_of_Z; reflexivity).
  assert (Hn' : (0 < inject_Z n)%Q)
    by (change 0%Q with (inject_Z 0); rewrite <- Zlt_Qlt; exact Hn).
  assert (Hx0 : (0 <= this (m * Num.of_Z n))%Q).
  { rewrite Ex; apply Qmult_le_0_compat; [exact H0|apply Qlt_le_weak, Hn']. }
  assert (Hx1 : (this (m * Num.of_Z n) < inject_Z n)%Q).
  { rewrite Ex.
    setoid_replace (inject_Z n) with (1 * inject_Z n)%Q at 2 by ring.
    apply Qmult_lt_compat_r; [exact Hn'|exact H1]. }
  unfold Num.int.
  destruct (Qle_bool _ _) eqn:E;
    [|apply Qle_bool_iff in Hx0; rewrite Hx0 in E; discriminate E].
  split.
  - change 0%Z with (Qfloor 0); apply Qfloor_resp_le; exact Hx0.
  - rewrite Zlt_Qlt.
    eapply Qle_lt_trans; [apply Qfloor_le|exact Hx1].
Qed.

Lemma index_in_range (len : nat) (i : Z) :
  (0 <= i < Z.of_nat len)%Z -> index len i = inr (Z.to_nat i).
Proof.
  intros [H0 H1]; unfold index.
  destruct (Z.leb_spec 0 i); [|lia].
  destruct (Z.ltb_spec i (Z.of_nat len)); [reflexivity|lia].
Qed.

Lemma add_cell_in_range r c g i j v :
  shaped r c g ->
  (0 <= i < Z.of_nat r)%Z -> (0 <= j < Z.of_nat c)%Z ->
  exists g', add_cell g i j v = inr g'.
Proof.
  intros Hg Hi Hj; unfold add_cell.
  destruct Hg as [Hl Hf].
  rewrite Hl, (index_in_range r i Hi); cbn [bind].
  rewrite (shaped_row r c g (Z.to_nat i) (conj Hl Hf)) by lia.
  rewrite (index_in_range c j Hj); cbn [bind].
  eexists; reflexivity.
Qed.

Lemma bin_atom_inside self ts v g atom :
  (0 < n1 self)%Z -> (0 < n2 self)%Z ->
  shaped (Z.to_nat (n1 self)) (Z.to_nat (n2 self)) g ->
  inside ts atom ->
  exists g', bin_atom self ts v g atom = inr g'.
Proof.
  intros Hn1 Hn2 Hg (Hx0 & Hx1 & Hy0 & Hy1).
  pose proof (fraction_in_unit _ _ Hx0 Hx1) as Hm1.
  pose proof (fraction_in_unit _ _ Hy0 Hy1) as Hm2.
  cbv zeta in Hm1, Hm2.
  destruct (no_wrap _ Hm1) as [E1 E2].
  destruct (no_wrap _ Hm2) as [E3 _].
  unfold bin_atom, fractions.
  cbv beta iota zeta.
  repeat (progress (rewrite ?E1, ?E2, ?E3; cbv beta iota)).
  apply (add_cell_in_range _ _ g _ _ v Hg).
  - rewrite Z2Nat.id by lia; apply (int_in_range _ _ Hm1 Hn1).
  - rewrite Z2Nat.id by lia; apply (int_in_range _ _ Hm2 Hn2).
Qed.

(** X18.  On a grid with at least one row and one column, if every
    selected atom lies inside the box of every frame along X and Y,
    [do2dgrid] does not raise: it appends a grid to the list. *)
Theorem accumulate_inside :
  forall (self : Density.t) (trajectory : Trajectory) (l_grids : list Grid),
    (0 < n1 self)%Z -> (0 < n2 self)%Z ->
    (forall ts atom,
        In ts trajectory -> In atom (selection self) -> inside ts atom) ->
    exists g : Grid,
      do2dgrid self trajectory l_grids = inr (l_grids ++ [g])%list.
Proof.
  intros self trajectory l_grids Hn1 Hn2 Hin.
  enough (G : exists g, accumulate self trajectory = inr g).
  { destruct G as [g Hg]; exists g.
    apply (do2dgrid_accumulate self trajectory l_grids g); exact Hg. }
  unfold accumulate, zeros.
  destruct (Z.ltb_spec (n1 self) 0) as [H|_]; [lia|].
  destruct (Z.ltb_spec (n2 self) 0) as [H|_]; [lia|].
  cbn [orb bind ret].
  assert (Hz : shaped (Z.to_nat (n1 self)) (Z.to_nat (n2 self))
                      (repeat (repeat 0 (Z.to_nat (n2 self)))
                              (Z.to_nat (n1 self)))).
  { split; [apply repeat_length|].
    apply Forall_forall; intros row Hrow.
    apply repeat_spec in Hrow; subst; apply repeat_length. }
  revert Hz; generalize (repeat (repeat 0 (Z.to_nat (n2 self)))
                                (Z.to_nat (n1 self))).
  induction trajectory as [|ts trajectory IH]; intros g Hg.
  - exists g; reflexivity.
  - cbn [for_each].
    assert (Hframe : exists g1, bin_frame self g ts = inr g1
                                /\ shaped (Z.to_nat (n1 self))
                                          (Z.to_nat (n2 self)) g1).
    { unfold bin_frame.
      assert (Hatoms : forall atom, In atom (selection self) ->
                                    inside ts atom)
        by (intros atom Ha; apply Hin; [left; reflexivity|exact Ha]).
      revert g Hg Hatoms; generalize (selection self); intros atoms.
      induction atoms as [|atom atoms IHa]; intros g Hg Hatoms.
      - exists g; split; [reflexivity|exact Hg].
      - cbn [for_each].
        destruct (bin_atom_inside self ts
                    (Num.of_Z (n1 self * n2 self)
                     / det3 (scale3 Num.tenth (triclinic_dimensions ts)))
                    g atom Hn1 Hn2 Hg (Hatoms atom (or_introl eq_refl)))
          as [g1 Hg1].
        rewrite Hg1; cbn [bind].
        apply IHa; [eapply bin_atom_shaped; eassumption|].
        intros a Ha; apply Hatoms; right; exact Ha. }
    destruct Hframe as (g1 & Hg1 & Hs1).
    rewrite Hg1; cbn [bind].
    apply IH; [|exact Hs1].
    intros ts' atom Hts Ha; apply Hin; [right; exact Hts|exact Ha].
Qed.

Lemma accumulate_inside_witness :
  exists g : Grid,
    do2dgrid density_2x3 [frame_2x3] [] = inr ([] ++ [g])%list.
Proof.
  apply accumulate_inside; [reflexivity|reflexivity|].
  intros ts atom [<-|[]] [<-|[]].
  vm_compute; repeat split; discriminate.
Defined.

End InsideBox.

(** ** The parallel driver and the timer *)

Section DriverMore.

Import Py Density Dmap Props Notions Fixtures.
Local Open Scope Qc_scope.

(** For a valid core count the slices are not empty as a list and lie
    end to end along the trajectory. *)
Lemma chunk_covers (u : Trajectory) (ncore : Z) :
  (1 <= ncore <= Z.of_nat (length u))%Z ->
  exists c chunks,
    chunk u ncore = inr (c :: chunks) /\ concat (c :: chunks) = u.
Proof.
  intros H.
  destruct (chunk_unfold u ncore H) as [Hstep Hchunk].
  set (n := Z.of_nat (length u)) in *.
  set (zstep := (n / ncore)%Z) in *.
  destruct (slice_count_bounds n zstep Hstep ltac:(lia)) as (Hcov & _ & Hc0).
  assert (Hcat : concat (map (fun k => firstn (Z.to_nat zstep)
                                         (skipn (k * Z.to_nat zstep) u))
                             (seq 0 (slice_count n zstep))) = u).
  { rewrite concat_slices; apply firstn_all2.
    unfold slice_count; fold n in Hcov.
    assert (E : Z.of_nat (Z.to_nat ((n + zstep - 1) / zstep)
                          * Z.to_nat zstep)
                = ((n + zstep - 1) / zstep * zstep)%Z)
      by (rewrite Nat2Z.inj_mul, !Z2Nat.id by lia; reflexivity).
    unfold n in *; lia. }
  destruct (map (fun k => firstn (Z.to_nat zstep)
                            (skipn (k * Z.to_nat zstep) u))
                (seq 0 (slice_count n zstep))) as [|c chunks] eqn:E.
  - simpl in Hcat; subst u; simpl in n; unfold n in H; lia.
  - exists c, chunks; split; [exact Hchunk|exact Hcat].
Qed.

(** X19.  For a core count between 1 and the number of frames, when a
    single [do2dgrid] pass over the whole trajectory yields a grid,
    [dmap_multiprocessing] returns what normalising that grid returns:
    cutting the frames and summing the partial grids changes
    nothing. *)
Theorem dmap_multiprocessing_single_pass :
  forall (u : Trajectory) (sel : AtomGroup) (ncore : Z)
         (dmap : Density.t) (G : Grid),
    (1 <= ncore <= Z.of_nat (length u))%Z ->
    Density.init u sel = inr dmap ->
    do2dgrid dmap u [] = inr [G] ->
    result (dmap_multiprocessing u sel ncore)
    = normalization dmap (Array2 G).
Proof.
  intros u sel ncore dmap G H Hinit Hpass.
  apply (do2dgrid_accumulate dmap u [] G) in Hpass.
  destruct (chunk_covers u ncore H) as (c & chunks & Hchunk & Hcat).
  unfold dmap_multiprocessing; rewrite Hinit, Hchunk; cbn [result].
  rewrite <- Hcat in Hpass.
  destruct (single_pass_splits dmap (c :: chunks) G Hpass) as [grids Hgrids].
  rewrite (run_processes_all dmap _ _ Hgrids).
  inversion Hgrids as [|? g ? gs Hc Hrest]; subst.
  rewrite (accumulate_concat dmap chunks gs c g Hc Hrest) in Hpass.
  injection Hpass as <-.
  rewrite py_sum_cons; reflexivity.
Qed.

Lemma dmap_multiprocessing_single_pass_witness :
  exists G : Grid,
    do2dgrid (mkDensity [frame_y_below; frame_y_below] [0%nat] 5 5)
             [frame_y_below; frame_y_below] [] = inr [G] /\
    result (dmap_multiprocessing [frame_y_below; frame_y_below] [0%nat] 2)
    = normalization (mkDensity [frame_y_below; frame_y_below] [0%nat] 5 5)
                    (Array2 G).
Proof.
  assert (Hinit : Density.init [frame_y_below; frame_y_below] [0%nat]
                  = inr (mkDensity [frame_y_below; frame_y_below]
                                   [0%nat] 5 5))
    by (vm_compute; reflexivity).
  destruct (accumulate (mkDensity [frame_y_below; frame_y_below] [0%nat] 5 5)
                       [frame_y_below; frame_y_below]) as [e|G] eqn:E;
    [vm_compute in E; discriminate E|].
  apply (do2dgrid_accumulate _ _ [] G) in E.
  exists G; split; [exact E|].
  apply (dmap_multiprocessing_single_pass _ _ 2 _ G);
    [simpl; lia|exact Hinit|exact E].
Defined.

Lemma chunk_negative (u : Trajectory) (ncore : Z) :
  (ncore < 0)%Z -> (- ncore <= Z.of_nat (length u))%Z -> u <> [] ->
  chunk u ncore = inr [].
Proof.
  intros Hneg Hle Hu; unfold chunk, chunk_len.
  destruct (Z.eqb_spec ncore 0) as [E|_]; [lia|].
  cbn [bind ret].
  set (n := Z.of_nat (length u)) in *.
  assert (Hn : (1 <= n)%Z)
    by (unfold n; destruct u; [contradiction|simpl; lia]).
  assert (Hq : (Z.quot n ncore = - (n / - ncore))%Z).
  { replace ncore with (- - ncore)%Z at 1 by lia.
    rewrite Z.quot_opp_r by lia.
    rewrite Z.quot_div_nonneg by lia; reflexivity. }
  rewrite Hq.
  set (k := (n / - ncore)%Z).
  assert (Hk : (1 <= k <= n)%Z).
  { unfold k; split.
    - apply Z.div_le_lower_bound; lia.
    - apply Z.div_le_upper_bound; nia. }
  unfold range.
  destruct (Z.eqb_spec (- k) 0) as [E|_]; [lia|].
  destruct (Z.ltb_spec 0 (- k)) as [E|_]; [lia|].
  cbn [bind ret].
  replace (Z.to_nat ((0 - n - - k - 1) / - - k)) with 0%nat; [reflexivity|].
  replace (- - k)%Z with k by lia.
  assert ((0 - n - - k - 1) / k < 0)%Z by (apply Z.div_lt_upper_bound; lia).
  lia.
Qed.

(** X20.  A core count of zero or less never yields a map.  On a
    trajectory that is not empty the call raises without starting a
    process: [ZeroDivisionError] for 0; for a negative count,
    [ValueError] when its absolute value exceeds the number of frames
    (the slice length is 0), and otherwise the error of normalising
    the sum of no grid at all. *)
Theorem dmap_multiprocessing_nonpositive_ncore :
  forall (u : Trajectory) (sel : AtomGroup) (ncore : Z),
    u <> [] -> (ncore <= 0)%Z ->
    started (dmap_multiprocessing u sel ncore) = [] /\
    result (dmap_multiprocessing u sel ncore)
    = inl (if (ncore =? 0)%Z then ZeroDivisionError
           else if (Z.of_nat (length u) <? - ncore)%Z then ValueError
                else AxisError).
Proof.
  intros u sel ncore Hu Hle.
  unfold dmap_multiprocessing.
  destruct u as [|ts u']; [contradiction|].
  destruct (init_nonempty ts u' sel) as [dmap Hinit].
  rewrite Hinit.
  assert (Hud : universe dmap = ts :: u')
    by (injection Hinit as <-; reflexivity).
  destruct (Z.eqb_spec ncore 0) as [->|Hne].
  - split; reflexivity.
  - destruct (Z.ltb_spec (Z.of_nat (length (ts :: u'))) (- ncore))
      as [Hfar|Hnear].
    + assert (Hchunk : chunk (ts :: u') ncore = inl ValueError).
      { unfold chunk, chunk_len.
        destruct (Z.eqb_spec ncore 0) as [E|_]; [contradiction|].
        replace ncore with (- - ncore)%Z at 1 by lia.
        rewrite Z.quot_opp_r, Z.quot_small by lia; reflexivity. }
      rewrite Hchunk; split; reflexivity.
    + rewrite (chunk_negative (ts :: u') ncore ltac:(lia) Hnear Hu).
      split; [reflexivity|].
      cbn [result run_processes fold_left py_sum].
      unfold normalization; rewrite Hud; reflexivity.
Qed.

Lemma dmap_multiprocessing_nonpositive_ncore_witness :
  started (dmap_multiprocessing [frame_2x3; frame_2x3] [0%nat] (-1)) = [] /\
  result (dmap_multiprocessing [frame_2x3; frame_2x3] [0%nat] (-1))
  = inl AxisError.
Proof.
  exact (dmap_multiprocessing_nonpositive_ncore
           [frame_2x3; frame_2x3] [0%nat] (-1)
           ltac:(discriminate) ltac:(lia)).
Defined.

(** X21.  The hours, minutes and seconds printed by [tac] add up to
    the elapsed seconds, with minutes and seconds between 0 and 59;
    the hours are not negative when the elapsed time is not. *)
Theorem tac_decomposition :
  forall elapsed : Z,
    let '(t_hour, t_min, t_sec) := Pipeline.tac elapsed in
    (elapsed = t_hour * 3600 + t_min * 60 + t_sec /\
     0 <= t_min < 60 /\ 0 <= t_sec < 60 /\
     (0 <= elapsed -> 0 <= t_hour))%Z.
Proof.
  intros elapsed; unfold Pipeline.tac; cbv beta iota zeta.
  pose proof (Z.div_mod elapsed 60 ltac:(lia)) as E1.
  pose proof (Z.mod_pos_bound elapsed 60 ltac:(lia)) as B1.
  pose proof (Z.div_mod (elapsed / 60) 60 ltac:(lia)) as E2.
  pose proof (Z.mod_pos_bound (elapsed / 60) 60 ltac:(lia)) as B2.
  repeat split; lia.
Qed.

Lemma tac_decomposition_witness :
  let '(t_hour, t_min, t_sec) := Pipeline.tac 3725 in
  (3725 = t_hour * 3600 + t_min * 60 + t_sec /\
   0 <= t_min < 60 /\ 0 <= t_sec < 60 /\
   (0 <= 3725 -> 0 <= t_hour))%Z.
Proof. exact (tac_decomposition 3725). Defined.

End DriverMore.

(** ** Atoms far outside the box *)

Section FarAtoms.

Import Py Density Dmap Props Notions Fixtures MoreFixtures.
Local Open Scope Qc_scope.













End FarAtoms.

(** ** Grid size, and when normalisation returns *)

Section GridSizes.

Import Py Density Dmap Props Notions Fixtures.
Local Open Scope Qc_scope.

Lemma bins_cells (len : Qc) :
  (this ((len * Num.tenth) / Num.bins) == 5 * this len)%Q.
Proof.
  rewrite this_div, this_mult.
  change (this Num.tenth) with (1 # 10)%Q.
  change (this Num.bins) with (1 # 50)%Q.
  field.
Qed.

(** X23.  The grid has five cells per length unit of the first
    frame's box, to the nearest integer: [n1] and [n2] differ from
    five times the X and Y box lengths by at most one half. *)
Theorem init_grid_size :
  forall (ts : Timestep) (u : Trajectory) (sel : AtomGroup),
    exists dmap : Density.t,
      Density.init (ts :: u) sel = inr dmap /\
      universe dmap = ts :: u /\ Density.selection dmap = sel /\
      (Qabs (5 * this (vx (dimensions ts)) - inject_Z (n1 dmap)) <= 1 # 2)%Q /\
      (Qabs (5 * this (vy (dimensions ts)) - inject_Z (n2 dmap)) <= 1 # 2)%Q.
Proof.
  intros ts u sel; eexists; split; [reflexivity|].
  cbn [universe Density.selection n1 n2].
  split; [reflexivity|]; split; [reflexivity|]; split.
  - rewrite <- bins_cells; apply rint_nearest.
  - rewrite <- bins_cells; apply rint_nearest.
Qed.

Lemma cons_each_length values (g : Grid) :
  length (cons_each values g) = Nat.min (length values) (length g).
Proof.
  revert g; induction values as [|v values IH]; intros [|row g]; simpl; auto.
Qed.

(** X24.  On a trajectory that is not empty, normalising a grid of
    shape [n1] x [n2] returns a grid exactly when [n1 = n2] or
    [n1 = 1]; in every other case the row of ticks does not fit and
    the call raises [ValueError]. *)
Theorem normalization_returns_iff :
  forall (self : Density.t) (final_grid : Grid),
    universe self <> [] ->
    shaped (Z.to_nat (n1 self)) (Z.to_nat (n2 self)) final_grid ->
    ((exists grid, normalization self (Array2 final_grid) = inr grid)
     <-> (Z.to_nat (n1 self) = Z.to_nat (n2 self)
          \/ Z.to_nat (n1 self) = 1%nat)) /\
    ((Z.to_nat (n1 self) <> Z.to_nat (n2 self)
      /\ Z.to_nat (n1 self) <> 1%nat) ->
     normalization self (Array2 final_grid) = inl ValueError).
Proof.
  intros self final_grid Hu [Hlen _].
  rewrite (normalization_steps self final_grid Hu).
  pose proof (ticks_length (Spec.avg_box vx (universe self)) (n1 self)
                (Z.to_nat (n1 self))) as Lx.
  remember (Spec.ticks (Spec.avg_box vx (universe self)) (n1 self)
                       (Z.to_nat (n1 self))) as tick_x eqn:Etx.
  clear Etx.
  set (tick_y := Spec.ticks (Spec.avg_box vy (universe self)) (n2 self)
                            (Z.to_nat (n1 self))).
  set (data := map (map (fun x => x / Num.of_Z (Z.of_nat
                                     (length (universe self)))))
                   final_grid).
  assert (Ly : length tick_y = Z.to_nat (n1 self)) by apply ticks_length.
  assert (Ld : length data = Z.to_nat (n1 self))
    by (unfold data; rewrite length_map; exact Hlen).
  assert (Hcol : forall row,
             insert_col (row :: data) (0 :: tick_y)
             = inr (cons_each (0 :: tick_y) (row :: data))).
  { intros row; unfold insert_col.
    replace (Nat.eqb (length (0 :: tick_y)) (length (row :: data)))
      with true; [reflexivity|].
    symmetry; apply Nat.eqb_eq; simpl; rewrite Ly, Ld; reflexivity. }
  unfold insert_row.
  destruct (Nat.eqb_spec (length tick_x) (Z.to_nat (n2 self))) as [E|E].
  - cbn [bind ret]; rewrite Hcol; cbn [bind ret].
    split; [|intros [H _]; exfalso; apply H; rewrite <- Lx; exact E].
    split; [intros _; left; rewrite <- Lx; exact E|].
    intros _; eexists; reflexivity.
  - destruct tick_x as [|v [|w more]].
    + split; [|reflexivity].
      split; [intros [grid H]; discriminate H|].
      intros [H|H]; [exfalso; apply E; rewrite Lx; exact H|].
      simpl in Lx; rewrite <- Lx in H; discriminate H.
    + cbn [bind ret]; rewrite Hcol; cbn [bind ret].
      split; [|intros [_ H]; exfalso; apply H; rewrite <- Lx; reflexivity].
      split; [intros _; right; rewrite <- Lx; reflexivity|].
      intros _; eexists; reflexivity.
    + split; [|reflexivity].
      split; [intros [grid H]; discriminate H|].
      intros [H|H]; [exfalso; apply E; rewrite Lx; exact H|].
      simpl in Lx; rewrite <- Lx in H; discriminate H.
Qed.

Lemma normalization_returns_iff_witness :
  normalization density_2x3 (Array2 (repeat (repeat 0 3%nat) 2%nat))
  = inl ValueError.
Proof.
  apply (normalization_returns_iff density_2x3
           (repeat (repeat 0 3%nat) 2%nat)).
  - discriminate.
  - split; [reflexivity | repeat constructor].
  - split; simpl; lia.
Defined.

End GridSizes.
